(** * File organizer: a shallow embedding of [organize.py]

    The program sorts the files of a folder into category sub-folders by
    extension, with a dry-run preview, a move log and an undo that replays
    the log backwards.  This file embeds the program's functions over a
    finite-map model of the file system and proves the properties the
    specification states about them.

    Modelling conventions.
    - A path is the list of its components below the file-system root; all
      paths are absolute and normalised, so [Path.resolve] is the identity.
    - The file system is a finite map from paths to nodes.  Symbolic links,
      permissions and devices are not modelled.
    - Strings are byte strings; case conversion and white space follow
      Python on the ASCII range.
    - [Path.suffix] and [Path.stem] follow the rule of pathlib up to
      Python 3.13: the last dot counts when it is neither the first nor the
      last character of the name.
    - What the program takes from its environment is an explicit input:
      the clock reading, and the sequence of paths the directory iterator
      yields, in the order the platform chooses.
    - The console is the list of the messages printed so far; a run ends
      by returning, by [sys.exit] or by an exception that reaches the top. *)

From Stdlib Require Import Ascii String.
From stdpp Require Import base tactics option list strings pretty gmap fin_maps.


(** ** Strings *)

Module Str.

(** [str.lower] on one character. *)
Definition lower_char (c : ascii) : ascii :=
  let n := nat_of_ascii c in
  if (65 <=? n)%nat && (n <=? 90)%nat then ascii_of_nat (n + 32) else c.

(** [str.lower]. *)
Fixpoint lower (s : string) : string :=
  match s with
  | EmptyString => EmptyString
  | String c r => String (lower_char c) (lower r)
  end.

(** [s.lstrip(".")]: drops every leading dot. *)
Fixpoint lstrip_dots (s : string) : string :=
  match s with
  | String "." r => lstrip_dots r
  | _ => s
  end.

(** [s.startswith(p)]. *)
Fixpoint startswith (p s : string) : bool :=
  match p, s with
  | EmptyString, _ => true
  | String a p', String b s' => if decide (a = b) then startswith p' s' else false
  | String _ _, EmptyString => false
  end.

(** [s.rfind(".")], with [None] for Python's [-1]. *)
Fixpoint rfind_dot (s : string) : option nat :=
  match s with
  | EmptyString => None
  | String c r =>
      match rfind_dot r with
      | Some i => Some (S i)
      | None => if decide (c = "."%char) then Some 0 else None
      end
  end.

(** [s[:i]] and [s[i:]]. *)
Fixpoint take (i : nat) (s : string) : string :=
  match i, s with
  | S i', String c r => String c (take i' r)
  | _, _ => EmptyString
  end.

Fixpoint drop (i : nat) (s : string) : string :=
  match i, s with
  | S i', String _ r => drop i' r
  | _, _ => s
  end.

Definition LF : ascii := "010"%char.
Definition CR : ascii := "013"%char.

(** [str.isspace] on the ASCII range: tab to carriage return, the four
    separators 28 to 31, and the space. *)
Definition is_space (c : ascii) : bool :=
  let n := nat_of_ascii c in
  ((9 <=? n)%nat && (n <=? 13)%nat) || ((28 <=? n)%nat && (n <=? 32)%nat).

Fixpoint lstrip (s : string) : string :=
  match s with
  | String c r => if is_space c then lstrip r else s
  | EmptyString => EmptyString
  end.

Fixpoint rstrip (s : string) : string :=
  match s with
  | EmptyString => EmptyString
  | String c r =>
      match rstrip r with
      | EmptyString => if is_space c then EmptyString else String c EmptyString
      | r' => String c r'
      end
  end.

(** [s.strip()]. *)
Definition strip (s : string) : string := lstrip (rstrip s).

(** Puts [c] in front of the first field of a split. *)
Definition cons_field (c : ascii) (fields : list string) : list string :=
  match fields with
  | f :: fs => String c f :: fs
  | [] => [String c EmptyString]
  end.

(** [s.split("||")]: cuts at each leftmost occurrence of the delimiter. *)
Fixpoint split_bars (s : string) : list string :=
  match s with
  | EmptyString => [EmptyString]
  | String c r =>
      match r with
      | String c' r' =>
          if decide (c = "|"%char ∧ c' = "|"%char)
          then EmptyString :: split_bars r'
          else cons_field c (split_bars r)
      | EmptyString => cons_field c (split_bars r)
      end
  end.

(** [s.split("/")]. *)
Fixpoint split_slash (s : string) : list string :=
  match s with
  | EmptyString => [EmptyString]
  | String c r =>
      if decide (c = "/"%char) then EmptyString :: split_slash r
      else cons_field c (split_slash r)
  end.

(** Reading in text mode: a carriage return, alone or before a line
    feed, is read as one line feed. *)
Fixpoint universal_newlines (s : string) : string :=
  match s with
  | EmptyString => EmptyString
  | String c r =>
      if decide (c = CR) then
        match r with
        | String c' r' =>
            if decide (c' = LF) then String LF (universal_newlines r')
            else String LF (universal_newlines r)
        | EmptyString => String LF EmptyString
        end
      else String c (universal_newlines r)
  end.

(** The lines of a text, each with its line feed when it has one. *)
Fixpoint lines (s : string) : list string :=
  match s with
  | EmptyString => []
  | String c r =>
      if decide (c = LF) then String c EmptyString :: lines r
      else cons_field c (lines r)
  end.


(** [c in s]. *)
Fixpoint mentions (c : ascii) (s : string) : bool :=
  match s with
  | EmptyString => false
  | String a r => bool_decide (a = c) || mentions c r
  end.

(** ["||" in s]. *)
Fixpoint has_bars (s : string) : bool :=
  match s with
  | EmptyString => false
  | String c r =>
      match r with
      | String c' _ =>
          bool_decide (c = "|"%char ∧ c' = "|"%char) || has_bars r
      | EmptyString => false
      end
  end.

End Str.

(** ** Classifier *)

(** The category table, in the iteration order of the dictionary literal. *)
Definition CATEGORIES : list (string * list string) :=
  [ ("images", ["jpg"; "jpeg"; "png"; "gif"; "webp"; "bmp"; "tiff"; "heic"]);
    ("docs", ["pdf"; "doc"; "docx"; "txt"; "md"; "rtf"]);
    ("slides", ["ppt"; "pptx"; "key"]);
    ("spreadsheets", ["xls"; "xlsx"; "csv"; "ods"]);
    ("archives", ["zip"; "rar"; "7z"; "tar"; "gz"]);
    ("audio", ["mp3"; "wav"; "aac"; "flac"; "m4a"; "ogg"]);
    ("video", ["mp4"; "mov"; "mkv"; "avi"; "wmv"; "webm"]);
    ("code", ["py"; "ipynb"; "js"; "ts"; "html"; "css"; "java"; "c"; "cpp";
              "rs"; "go"; "sh"; "ps1"]) ].

Definition OTHER_BUCKET : string := "other".
Definition NOEXT_BUCKET : string := "no_extension".

(** The [for bucket, exts in CATEGORIES.items()] loop of [pick_bucket]. *)
Fixpoint search_table (table : list (string * list string)) (ext : string)
  : option string :=
  match table with
  | [] => None
  | (bucket, exts) :: rest =>
      if bool_decide (ext ∈ exts) then Some bucket else search_table rest ext
  end.

Definition pick_bucket (ext : string) : string :=
  if decide (ext = "") then NOEXT_BUCKET
  else
    let ext := Str.lstrip_dots (Str.lower ext) in
    match search_table CATEGORIES ext with
    | Some bucket => bucket
    | None => OTHER_BUCKET
    end.

(** ** Paths *)

Abbreviation path := (list string).

Module Path.

(** [p / name]. *)
Definition child (p : path) (name : string) : path := p ++ [name].

(** [p.name]; the root has the empty name. *)
Definition name (p : path) : string := List.last p "".

(** [p.parent]; the root is its own parent. *)
Definition parent (p : path) : path := removelast p.

(** [Path(name).suffix]: from the last dot on, when that dot is neither
    the first nor the last character. *)
Definition suffix (name : string) : string :=
  match Str.rfind_dot name with
  | Some i =>
      if (0 <? i)%nat && (i <? String.length name - 1)%nat
      then Str.drop i name else ""
  | None => ""
  end.

(** [Path(name).stem]: the name without its suffix. *)
Definition stem (name : string) : string :=
  match Str.rfind_dot name with
  | Some i =>
      if (0 <? i)%nat && (i <? String.length name - 1)%nat
      then Str.take i name else name
  | None => name
  end.

(** [str(p)] for an absolute path. *)
Fixpoint render (p : path) : string :=
  match p with
  | [] => ""
  | c :: r => "/" +:+ c +:+ render r
  end.

Definition to_string (p : path) : string :=
  match p with
  | [] => "/"
  | _ => render p
  end.

End Path.

Infix "//" := Path.child (at level 40, left associativity).

(** ** The file system *)

Inductive node : Type :=
| File (content : string)
| Dir.

Global Instance node_eq_dec : EqDecision node.
Proof. solve_decision. Defined.

Abbreviation filesystem := (gmap path node).

(** [p.exists()] and [p.is_dir()]. *)
Definition exists_ (fs : filesystem) (p : path) : bool :=
  match fs !! p with
  | Some _ => true
  | None => false
  end.

Definition is_dir (fs : filesystem) (p : path) : bool :=
  match fs !! p with
  | Some Dir => true
  | _ => false
  end.

(** ** Collision resolver *)

(** The name [f"{base} ({k}){ext}"]. *)
Definition numbered (base : string) (k : nat) (ext : string) : string :=
  base +:+ " (" +:+ pretty k +:+ ")" +:+ ext.

(** The [while candidate.exists()] loop; [None] when the fuel runs out
    before a free candidate is met. *)
Fixpoint safe_destination_loop (fuel : nat) (fs : filesystem) (dst_folder : path)
    (base ext : string) (candidate : path) (k : nat) : option path :=
  if exists_ fs candidate then
    match fuel with
    | O => None
    | S fuel' =>
        safe_destination_loop fuel' fs dst_folder base ext
          (dst_folder // numbered base k ext) (k + 1)
    end
  else Some candidate.

(** [safe_destination]; [filename] is one path component, as at both call
    sites.  The loop stops within [size fs] rounds (theorem
    [safe_destination_terminates]), so this fuel always suffices and the
    default is never taken. *)
Definition safe_destination (fs : filesystem) (dst_folder : path) (filename : string)
  : path :=
  let base := Path.stem filename in
  let ext := Path.suffix filename in
  let candidate := dst_folder // filename in
  default candidate
    (safe_destination_loop (S (size fs)) fs dst_folder base ext candidate 2).

(** ** Effects: console, exceptions, state *)

(** One constructor per [print] call of the program, with the values its
    format string shows. *)
Inductive message : Type :=
| MsgDryRunMove (src dst : path)
| MsgMoved (src_name dst_parent_name dst_name : string)
| MsgNotADirectory (folder : path)
| MsgLogSaved (log_path : path)
| MsgProcessed (processed : nat)
| MsgLogNotFound (log_file : path)
| MsgDryRunUndo (dst target : path)
| MsgUndid (dst target : path)
| MsgMissing (dst : path).

(** The exceptions the modelled library calls raise. *)
Inductive exn : Type :=
| FileNotFoundError
| FileExistsError
| NotADirectoryError
| IsADirectoryError
| ShutilError
| ValueError.

(** How a call ends: it returns, [sys.exit] stops the process, or an
    exception propagates to the top. *)
Inductive outcome (A : Type) : Type :=
| Ok (a : A)
| Exit (code : nat)
| Raise (e : exn).
Arguments Ok {A} a.
Arguments Exit {A} code.
Arguments Raise {A} e.

(** The world the program acts on: the file system and the console. *)
Record world : Type := World { fs : filesystem; out : list message }.

Definition M (A : Type) : Type := world → outcome A * world.

Global Instance M_ret : MRet M := λ A a w, (Ok a, w).

Global Instance M_bind : MBind M := λ A B f m w,
  match m w with
  | (Ok a, w') => f a w'
  | (Exit c, w') => (Exit c, w')
  | (Raise e, w') => (Raise e, w')
  end.

Definition gets {A} (f : filesystem → A) : M A := λ w, (Ok (f (fs w)), w).

Definition set_fs (fs' : filesystem) : M unit := λ w, (Ok (), World fs' (out w)).

Definition print (m : message) : M unit :=
  λ w, (Ok (), World (fs w) (out w ++ [m])).

Definition sys_exit {A} (code : nat) : M A := λ w, (Exit code, w).

Definition raise {A} (e : exn) : M A := λ w, (Raise e, w).

(** Runs a pure file-system operation that may raise. *)
Definition lift_fs (op : filesystem → exn + filesystem) : M unit := λ w,
  match op (fs w) with
  | inl e => (Raise e, w)
  | inr fs' => (Ok (), World fs' (out w))
  end.

(** ** File-system operations *)

(** [path.mkdir(parents=True, exist_ok=True)], on the reversed path: an
    existing directory is accepted, a file in the way is an error, and a
    missing parent is created first. *)
Fixpoint mkdir_parents (rev_path : list string) (fs : filesystem)
  : exn + filesystem :=
  let p := rev rev_path in
  match fs !! p with
  | Some Dir => inr fs
  | Some (File _) => inl FileExistsError
  | None =>
      match rev_path with
      | [] => inl FileNotFoundError
      | _ :: rev_parent =>
          match fs !! rev rev_parent with
          | Some Dir => inr (<[p := Dir]> fs)
          | Some (File _) => inl NotADirectoryError
          | None =>
              match mkdir_parents rev_parent fs with
              | inl e => inl e
              | inr fs' => inr (<[p := Dir]> fs')
              end
          end
      end
  end.

Definition ensure_dir (p : path) : M unit := lift_fs (mkdir_parents (rev p)).

(** [p] without the prefix [pre], when it has it. *)
Fixpoint strip_prefix (pre p : path) : option path :=
  match pre, p with
  | [], _ => Some p
  | a :: pre', b :: p' => if decide (a = b) then strip_prefix pre' p' else None
  | _ :: _, [] => None
  end.

(** Renaming a directory: every entry below [src] moves below [dst]. *)
Definition relocate (src dst : path) (fs : filesystem) : filesystem :=
  map_fold (λ p n acc,
      match strip_prefix src p with
      | Some rest => <[(dst ++ rest)%list := n]> acc
      | None => <[p := n]> acc
      end) ∅ fs.

(** [shutil.move(src, dst)].  A destination that is a directory receives
    the source under its own name; otherwise the source is renamed to the
    destination, replacing a file that is there.  The program calls it
    only after [ensure_dir] on the destination's parent, so the copy
    fallback that [shutil.move] tries after a failed rename is not
    modelled: a failed rename raises. *)
Definition shutil_move (src dst : path) (fs : filesystem) : exn + filesystem :=
  match fs !! src with
  | None => inl FileNotFoundError
  | Some n =>
      let real_dst := if is_dir fs dst then dst // Path.name src else dst in
      if is_dir fs dst && exists_ fs real_dst then inl ShutilError
      else if negb (is_dir fs (Path.parent real_dst)) then inl FileNotFoundError
      else
        match n with
        | File c => inr (<[real_dst := File c]> (delete src fs))
        | Dir =>
            if exists_ fs real_dst then inl FileExistsError
            else if bool_decide (is_Some (strip_prefix src real_dst))
            then inl ShutilError
            else inr (relocate src real_dst fs)
        end
  end.

(** [open(p, "w")]: creates the file or empties it. *)
Definition open_write (p : path) (fs : filesystem) : exn + filesystem :=
  match fs !! p with
  | Some Dir => inl IsADirectoryError
  | _ =>
      match fs !! Path.parent p with
      | Some Dir => inr (<[p := File ""]> fs)
      | Some (File _) => inl NotADirectoryError
      | None => inl FileNotFoundError
      end
  end.

(** [f.write(text)] on the file opened at [p]. *)
Definition write (p : path) (text : string) (fs : filesystem) : exn + filesystem :=
  match fs !! p with
  | Some (File c) => inr (<[p := File (c +:+ text)]> fs)
  | _ => inr fs
  end.

(** [open(p, "r")] followed by reading the whole text. *)
Definition read_text (p : path) : M string := λ w,
  match fs w !! p with
  | Some (File c) => (Ok c, w)
  | Some Dir => (Raise IsADirectoryError, w)
  | None => (Raise FileNotFoundError, w)
  end.

(** ** Move executor *)

(** The line [f"{src}||{dst}\n"] of the move log. *)
Definition record_line (src dst : path) : string :=
  Path.to_string src +:+ "||" +:+ Path.to_string dst +:+ String Str.LF "".

(** [move_file]; [log_f] is the path the open log was created at. *)
Definition move_file (src dst : path) (dry_run : bool) (log_f : option path)
  : M unit :=
  if dry_run then print (MsgDryRunMove src dst)
  else
    ensure_dir (Path.parent dst) ;;
    lift_fs (shutil_move src dst) ;;
    match log_f with
    | Some f => lift_fs (write f (record_line src dst))
    | None => mret ()
    end ;;
    print (MsgMoved (Path.name src) (Path.name (Path.parent dst)) (Path.name dst)).

(** ** Organize planner *)

(** What [datetime.now()] returns. *)
Record datetime : Type := Datetime {
  year : nat; month : nat; day : nat; hour : nat; minute : nat; second : nat
}.

Definition two_digits (n : nat) : string :=
  if (n <? 10)%nat then "0" +:+ pretty n else pretty n.

(** [now.strftime("%Y%m%d_%H%M%S")]. *)
Definition strftime (now : datetime) : string :=
  pretty (year now) +:+ two_digits (month now) +:+ two_digits (day now)
  +:+ "_" +:+ two_digits (hour now) +:+ two_digits (minute now)
  +:+ two_digits (second now).

Definition LOG_PREFIX : string := "_organize_log_".

Definition log_name (now : datetime) : string :=
  LOG_PREFIX +:+ strftime now +:+ ".txt".

(** The [for p in iterator] loop of [organize] over the paths the iterator
    yields, returning the count of processed files. *)
Fixpoint organize_loop (folder : path) (dry_run include_subdirs : bool)
    (log_f : option path) (yielded : list path) (processed : nat) : M nat :=
  match yielded with
  | [] => mret processed
  | p :: rest =>
      d ← gets (λ fs, is_dir fs p);
      if d : bool then
        organize_loop folder dry_run include_subdirs log_f rest processed
      else if Str.startswith LOG_PREFIX (Path.name p) then
        organize_loop folder dry_run include_subdirs log_f rest processed
      else if negb include_subdirs && bool_decide (Path.parent p ≠ folder) then
        organize_loop folder dry_run include_subdirs log_f rest processed
      else
        let ext := Path.suffix (Path.name p) in
        let bucket := pick_bucket ext in
        let dst_folder := folder // bucket in
        dst ← gets (λ fs, safe_destination fs dst_folder (Path.name p));
        move_file p dst dry_run log_f ;;
        organize_loop folder dry_run include_subdirs log_f rest (processed + 1)
  end.

(** [organize].  The two inputs the program takes from its environment are
    explicit: [now] is the clock reading, and [yielded] is the sequence of
    paths that [folder.iterdir()] (or [folder.rglob("*")] when
    [include_subdirs]) hands to the loop, in the order the platform
    chooses. *)
Definition organize (now : datetime) (yielded : list path) (folder : path)
    (dry_run include_subdirs : bool) : M unit :=
  d ← gets (λ fs, is_dir fs folder);
  if negb d then
    print (MsgNotADirectory folder) ;; sys_exit 1
  else
    let log_path := folder // log_name now in
    log_f ← (if dry_run then mret None
             else lift_fs (open_write log_path) ;; mret (Some log_path));
    processed ← organize_loop folder dry_run include_subdirs log_f yielded 0;
    match log_f with
    | Some _ => print (MsgLogSaved log_path)
    | None => mret ()
    end ;;
    print (MsgProcessed processed).

(** ** Undo engine *)

(** [Path(text)]: the components between slashes, without the empty ones
    and the single dots.  A text that does not start with a slash is read
    from the working directory, which the model takes to be the root. *)
Definition parse_path (text : string) : path :=
  filter (λ c, c ≠ "" ∧ c ≠ ".") (Str.split_slash text).

(** [src, dst = line.strip().split("||")]. *)
Definition parse_line (line : string) : option (path * path) :=
  match Str.split_bars (Str.strip line) with
  | [src; dst] => Some (parse_path src, parse_path dst)
  | _ => None
  end.

(** The reading loop: every line must parse. *)
Fixpoint parse_lines (ls : list string) : option (list (path * path)) :=
  match ls with
  | [] => Some []
  | l :: rest =>
      match parse_line l with
      | None => None
      | Some m =>
          match parse_lines rest with
          | None => None
          | Some ms => Some (m :: ms)
          end
      end
  end.

Definition parse_log (text : string) : option (list (path * path)) :=
  parse_lines (Str.lines (Str.universal_newlines text)).

(** The body of the undo loop for one record. *)
Definition undo_record (dry_run : bool) (src dst : path) : M unit :=
  e ← gets (λ fs, exists_ fs dst);
  if e : bool then
    target ← gets (λ fs,
      if exists_ fs src
      then safe_destination fs (Path.parent src) (Path.name dst)
      else src);
    if dry_run then print (MsgDryRunUndo dst target)
    else
      ensure_dir (Path.parent target) ;;
      lift_fs (shutil_move dst target) ;;
      print (MsgUndid dst target)
  else print (MsgMissing dst).

(** The loop over the records, already in the order they are undone. *)
Fixpoint undo_loop (dry_run : bool) (records : list (path * path)) : M unit :=
  match records with
  | [] => mret ()
  | (src, dst) :: rest => undo_record dry_run src dst ;; undo_loop dry_run rest
  end.

Definition undo (log_file : path) (dry_run : bool) : M unit :=
  e ← gets (λ fs, exists_ fs log_file);
  if negb e then
    print (MsgLogNotFound log_file) ;; sys_exit 1
  else
    text ← read_text log_file;
    match parse_log text with
    | None => raise ValueError
    | Some moves => undo_loop dry_run (rev moves)
    end.

(** ** Vocabulary of the statements *)

(** The k-th numbered candidate of the collision resolver. *)
Definition numbered_path (dst_folder : path) (base ext : string) (k : nat)
  : path :=
  dst_folder // numbered base k ext.

(** The three [continue] tests of the organize loop, on a given state of
    the file system. *)
Definition skipped (fs : filesystem) (folder : path) (include_subdirs : bool)
    (p : path) : bool :=
  is_dir fs p
  || Str.startswith LOG_PREFIX (Path.name p)
  || (negb include_subdirs && bool_decide (Path.parent p ≠ folder)).

(** The destination the loop computes for [p] on a given state. *)
Definition planned_dst (fs : filesystem) (folder p : path) : path :=
  safe_destination fs (folder // pick_bucket (Path.suffix (Path.name p)))
    (Path.name p).

(** The (source, destination) pairs the loop decides when every file is
    planned against the same state [fs]. *)
Definition plan (fs : filesystem) (folder : path) (include_subdirs : bool)
    (yielded : list path) : list (path * path) :=
  (λ p, (p, planned_dst fs folder p))
    <$> List.filter (λ p, negb (skipped fs folder include_subdirs p)) yielded.

(** The pairs a console shows as dry-run moves, in order. *)
Fixpoint reported (msgs : list message) : list (path * path) :=
  match msgs with
  | [] => []
  | MsgDryRunMove src dst :: rest => (src, dst) :: reported rest
  | _ :: rest => reported rest
  end.

(** The text of a move log holding the given records. *)
Fixpoint log_text (records : list (path * path)) : string :=
  match records with
  | [] => ""
  | (src, dst) :: rest => record_line src dst +:+ log_text rest
  end.

(** The direct children of a folder. *)
Definition children (fs : filesystem) (folder : path) : gset path :=
  filter (λ p, p ≠ [] ∧ Path.parent p = folder) (dom fs).

(** The file system once [p] is a directory, for a [p] that is free or a
    directory already. *)
Definition with_dir (fs : filesystem) (p : path) : filesystem :=
  match fs !! p with
  | None => <[p := Dir]> fs
  | Some _ => fs
  end.

(** The console lines of a real run that executes the given pairs. *)
Definition moved_messages (pairs : list (path * path)) : list message :=
  (λ sd, MsgMoved (Path.name sd.1) (Path.name (Path.parent sd.2))
           (Path.name sd.2)) <$> pairs.

(** The console lines of an undo that restores the given records. *)
Definition undid_messages (records : list (path * path)) : list message :=
  (λ sd, MsgUndid sd.2 sd.1) <$> records.

(** [fsf] is [fsi] after the pairs were executed one by one and logged
    after [text] in the log: every source is gone, every destination holds
    what the source held in [fs0], every destination folder is a directory,
    and nothing else changed. *)
Definition executed (fs0 fsi fsf : filesystem) (log : path) (text : string)
    (pairs : list (path * path)) : Prop :=
  fsf !! log = Some (File (text +:+ log_text pairs))
  ∧ (∀ s d, (s, d) ∈ pairs →
       fsf !! s = None ∧ fsf !! d = fs0 !! s
       ∧ fsf !! Path.parent d = Some Dir)
  ∧ (∀ q, q ≠ log → q ∉ pairs.*1 → q ∉ pairs.*2 →
          q ∉ Path.parent <$> pairs.*2 → fsf !! q = fsi !! q).

(** The invariant of the real organize loop over the paths still to come:
    the root is a directory, the children still to come are as in the
    snapshot [fs0], their destinations are still the ones planned on [fs0],
    and no file sits where a bucket folder is needed. *)
Definition loop_invariant (fs0 : filesystem) (folder log : path)
    (yielded : list path) (fsi : filesystem) : Prop :=
  fsi !! folder = Some Dir
  ∧ (∀ n, folder // n ∈ yielded → folder // n ≠ log →
          fsi !! (folder // n) = fs0 !! (folder // n))
  ∧ (∀ p, p ∈ yielded → skipped fs0 folder false p = false →
          planned_dst fsi folder p = planned_dst fs0 folder p)
  ∧ (∀ p c, p ∈ yielded → skipped fs0 folder false p = false →
            fsi !! (folder // pick_bucket (Path.suffix (Path.name p)))
            ≠ Some (File c)).

(** [p.is_file()]. *)
Definition is_file (fs : filesystem) (p : path) : bool :=
  match fs !! p with
  | Some (File _) => true
  | _ => false
  end.

(** A name a folder entry can have: not empty, not the single dot, without
    a slash. *)
Definition valid_name (n : string) : Prop :=
  n ≠ "" ∧ n ≠ "." ∧ Str.mentions "/" n = false.

(** A name that the move log can carry: a valid name without line break
    and without the record delimiter. *)
Definition loggable_name (n : string) : Prop :=
  valid_name n
  ∧ Str.mentions Str.LF n = false ∧ Str.mentions Str.CR n = false
  ∧ Str.has_bars n = false.

(** A record that reads back from its log line: valid names, no line
    break, the delimiter only between the two paths, and no white space at
    the end. *)
Definition record_ok (record : path * path) : Prop :=
  let a := Path.to_string record.1 in
  let b := Path.to_string record.2 in
  Forall valid_name record.1 ∧ Forall valid_name record.2
  ∧ Str.mentions Str.LF (a +:+ b) = false
  ∧ Str.mentions Str.CR (a +:+ b) = false
  ∧ Str.has_bars (a +:+ "|") = false ∧ Str.has_bars b = false
  ∧ Str.rstrip b = b.

(** [fsf] is [fsi] after the records were undone: every original source
    holds what the moved destination held, every moved destination is
    gone, and nothing else changed. *)
Definition restored (fsi fsf : filesystem) (records : list (path * path))
  : Prop :=
  (∀ s d, (s, d) ∈ records → fsf !! s = fsi !! d ∧ fsf !! d = None)
  ∧ (∀ q, q ∉ records.*1 → q ∉ records.*2 → fsf !! q = fsi !! q).

(** Every entry other than the root lies in a directory. *)
Definition well_formed (fs : filesystem) : Prop :=
  map_Forall (λ p _, p = [] ∨ is_dir fs (Path.parent p) = true) fs.

(** ** Scenarios *)

Module Scenario.

Definition now : datetime := Datetime 2024 1 2 3 4 5.

Definition home : path := ["home"].

Definition log : path := home // log_name now.

(** The folder of the specification's round trip: three files. *)
Definition three_files : filesystem :=
  list_to_map
    [ ([], Dir); (home, Dir);
      (home // "a.jpg", File "A");
      (home // "b.pdf", File "B");
      (home // "c", File "C") ].

(** A folder where the preview hands out one name twice: [a.jpg] is
    taken in [images], so [a.jpg] is planned as [a (2).jpg], which is
    also the plan for the file that already has that name. *)
Definition twice_planned : filesystem :=
  list_to_map
    [ ([], Dir); (home, Dir);
      (home // "a.jpg", File "first");
      (home // "a (2).jpg", File "second");
      (home // "images", Dir);
      (home // "images" // "a.jpg", File "old") ].

(** A folder where a directory has the name of the log to come. *)
Definition log_name_taken : filesystem :=
  list_to_map [ ([], Dir); (home, Dir); (log, Dir) ].

(** An empty folder. *)
Definition empty_folder : filesystem :=
  list_to_map [ ([], Dir); (home, Dir) ].

(** After a run that moved [a.jpg] to [images/a (3).jpg], the third of
    that name there, a new [a.jpg] was put in the root. *)
Definition reoccupied : filesystem :=
  list_to_map
    [ ([], Dir); (home, Dir);
      (log, File (record_line (home // "a.jpg")
                    (home // "images" // "a (3).jpg")));
      (home // "a.jpg", File "new");
      (home // "images", Dir);
      (home // "images" // "a.jpg", File "old 1");
      (home // "images" // "a (2).jpg", File "old 2");
      (home // "images" // "a (3).jpg", File "moved") ].

(** A log of two records whose first destination is gone. *)
Definition one_missing : filesystem :=
  list_to_map
    [ ([], Dir); (home, Dir);
      (log, File (log_text
                    [ (home // "b.pdf", home // "docs" // "b.pdf");
                      (home // "a.jpg", home // "images" // "a.jpg") ]));
      (home // "images", Dir);
      (home // "images" // "a.jpg", File "A");
      (home // "docs", Dir) ].

(** A log of two records, both destinations gone. *)
Definition all_missing : filesystem :=
  list_to_map
    [ ([], Dir); (home, Dir);
      (log, File (log_text
                    [ (home // "b.pdf", home // "docs" // "b.pdf");
                      (home // "a.jpg", home // "images" // "a.jpg") ]));
      (home // "images", Dir); (home // "docs", Dir) ].

(** A log with a good record followed by a blank line. *)
Definition blank_line : filesystem :=
  list_to_map
    [ ([], Dir); (home, Dir);
      (log, File (record_line (home // "a.jpg") (home // "images" // "a.jpg")
                  +:+ String Str.LF ""));
      (home // "images", Dir);
      (home // "images" // "a.jpg", File "A") ].

End Scenario.

(** * Properties *)

(** ** String facts *)

Lemma append_cons c s t : String c s +:+ t = String c (s +:+ t).
Proof. reflexivity. Qed.

Lemma append_nil_r s : s +:+ "" = s.
Proof. induction s as [|c s IH]; [done|]. by rewrite append_cons, IH. Qed.

Lemma append_assoc s t u : (s +:+ t) +:+ u = s +:+ t +:+ u.
Proof. induction s as [|c s IH]; [done|]. by rewrite !append_cons, IH. Qed.

Lemma length_append s t :
  String.length (s +:+ t) = String.length s + String.length t.
Proof. induction s as [|c s IH]; [done|]. rewrite append_cons. simpl. by rewrite IH. Qed.

Lemma append_inv_tail s1 s2 t : s1 +:+ t = s2 +:+ t → s1 = s2.
Proof.
  revert s2. induction s1 as [|c s1 IH]; intros [|c2 s2] H; try done.
  - change (t = String c2 (s2 +:+ t)) in H.
    apply (f_equal String.length) in H. simpl in H.
    rewrite length_append in H. lia.
  - change (String c (s1 +:+ t) = t) in H.
    apply (f_equal String.length) in H. simpl in H.
    rewrite length_append in H. lia.
  - rewrite !append_cons in H. injection H as -> H. f_equal. by apply IH.
Qed.

(** The numbered names of one file are pairwise distinct. *)
Lemma numbered_inj base ext k k' :
  numbered base k ext = numbered base k' ext → k = k'.
Proof.
  unfold numbered. intros H.
  apply (inj (String.app base)), (inj (String.app " (")) in H.
  rewrite <- !append_assoc in H. apply append_inv_tail, append_inv_tail in H.
  by apply (inj pretty) in H.
Qed.

(** ** Classifier *)

(** Every extension of the table is owned by the bucket that lists it: no
    extension appears under two buckets. *)
Lemma CATEGORIES_disjoint bucket exts ext :
  (bucket, exts) ∈ CATEGORIES → ext ∈ exts →
  search_table CATEGORIES ext = Some bucket.
Proof.
  intros Hb He.
  assert (Forall (λ be, Forall (λ e, search_table CATEGORIES e = Some be.1) be.2)
            CATEGORIES) as HF.
  { unfold CATEGORIES. repeat constructor. }
  rewrite Forall_forall in HF. specialize (HF _ Hb). simpl in HF.
  rewrite Forall_forall in HF. by apply HF.
Qed.

Lemma search_table_Some table ext bucket :
  search_table table ext = Some bucket →
  ∃ exts, (bucket, exts) ∈ table ∧ ext ∈ exts.
Proof.
  induction table as [|[b exts] table IH]; simpl; [done|].
  case_bool_decide as He.
  - intros [= <-]. exists exts. split; [left | done].
  - intros H. destruct (IH H) as (exts' & ? & ?). exists exts'. split; [by right | done].
Qed.

Lemma search_table_None table ext :
  search_table table ext = None →
  ∀ bucket exts, (bucket, exts) ∈ table → ext ∉ exts.
Proof.
  induction table as [|[b exts] table IH]; simpl; intros H bucket exts' Hin.
  - by apply elem_of_nil in Hin.
  - case_bool_decide as He; [done|].
    apply elem_of_cons in Hin as [[= -> ->]|Hin]; [done | by eapply IH].
Qed.

Lemma reserved_not_in_table bucket exts :
  (bucket, exts) ∈ CATEGORIES → bucket ≠ NOEXT_BUCKET ∧ bucket ≠ OTHER_BUCKET.
Proof.
  intros Hin.
  assert (Forall (λ be, be.1 ≠ NOEXT_BUCKET ∧ be.1 ≠ OTHER_BUCKET) CATEGORIES) as HF.
  { unfold CATEGORIES. repeat (apply Forall_cons_2; [by split|]). apply Forall_nil_2. }
  rewrite Forall_forall in HF. by apply (HF _ Hin).
Qed.




(** ** Collision resolver *)

Section safe_destination.
Context (fs : filesystem) (dst_folder : path) (base ext : string).

Lemma numbered_path_inj k k' :
  numbered_path dst_folder base ext k = numbered_path dst_folder base ext k' →
  k = k'.
Proof.
  unfold numbered_path, Path.child. intros H.
  apply app_inj_tail in H as [_ H]. by apply numbered_inj in H.
Qed.

(** What the loop returns is free, and every candidate tried before it is
    taken. *)
Lemma safe_destination_loop_Some fuel candidate k p :
  safe_destination_loop fuel fs dst_folder base ext candidate k = Some p →
  (exists_ fs candidate = false ∧ p = candidate)
  ∨ (exists_ fs candidate = true
     ∧ ∃ j, k ≤ j ∧ p = numbered_path dst_folder base ext j
            ∧ exists_ fs p = false
            ∧ ∀ i, k ≤ i < j →
                exists_ fs (numbered_path dst_folder base ext i) = true).
Proof.
  revert candidate k. induction fuel as [|fuel IH]; intros candidate k; simpl.
  - destruct (exists_ fs candidate) eqn:He; [done|]. intros [= <-]. by left.
  - destruct (exists_ fs candidate) eqn:He; [|intros [= <-]; by left].
    intros H. right. split; [done|].
    apply IH in H as [[Hfree ->]|(Hk & j & Hj & -> & Hfree & Hbelow)].
    + exists k. repeat split; [lia | done | intros i Hi; lia].
    + exists j. repeat split; [lia | done |].
      intros i Hi. destruct (decide (i = k)) as [->|]; [done|].
      apply Hbelow. lia.
Qed.

(** The loop runs dry only when all the names it tried are taken. *)
Lemma safe_destination_loop_None fuel candidate k :
  safe_destination_loop fuel fs dst_folder base ext candidate k = None →
  exists_ fs candidate = true
  ∧ ∀ i, k ≤ i < k + fuel →
      exists_ fs (numbered_path dst_folder base ext i) = true.
Proof.
  revert candidate k. induction fuel as [|fuel IH]; intros candidate k; simpl.
  - destruct (exists_ fs candidate) eqn:He; [|done]. intros _.
    split; [done|]. intros i Hi. lia.
  - destruct (exists_ fs candidate) eqn:He; [|done]. intros H.
    apply IH in H as [Hk Hrest]. split; [done|].
    intros i Hi. destruct (decide (i = k)) as [->|]; [done|].
    apply Hrest. lia.
Qed.

(** Only [size fs] names can be taken. *)
Lemma taken_names_bounded k n :
  (∀ i, k ≤ i < k + n →
        exists_ fs (numbered_path dst_folder base ext i) = true) →
  n ≤ size fs.
Proof.
  intros Htaken.
  trans (length (numbered_path dst_folder base ext <$> seq k n));
    [by rewrite length_fmap, length_seq|].
  rewrite <- size_dom. unfold size, set_size. simpl.
  apply submseteq_length, NoDup_submseteq.
  - apply (NoDup_fmap_2_strong (numbered_path dst_folder base ext)); [|apply NoDup_seq].
    intros i j _ _. apply numbered_path_inj.
  - intros p (i & -> & Hi)%list_elem_of_fmap.
    apply elem_of_seq in Hi. apply elem_of_elements, elem_of_dom.
    specialize (Htaken i Hi). unfold exists_ in Htaken.
    by destruct (fs !! numbered_path dst_folder base ext i).
Qed.

Lemma safe_destination_loop_enough fuel candidate k :
  size fs < fuel →
  is_Some (safe_destination_loop fuel fs dst_folder base ext candidate k).
Proof.
  intros Hfuel.
  destruct (safe_destination_loop _ _ _ _ _ _ _) as [p|] eqn:H; [by eexists|].
  apply safe_destination_loop_None in H as [_ H].
  apply taken_names_bounded in H. lia.
Qed.

Lemma safe_destination_loop_mono fuel fuel' candidate k p :
  safe_destination_loop fuel fs dst_folder base ext candidate k = Some p →
  fuel ≤ fuel' →
  safe_destination_loop fuel' fs dst_folder base ext candidate k = Some p.
Proof.
  revert fuel' candidate k.
  induction fuel as [|fuel IH]; intros fuel' candidate k; simpl.
  - destruct (exists_ fs candidate) eqn:He; [done|]. intros [= <-] _.
    destruct fuel'; simpl; by rewrite He.
  - destruct (exists_ fs candidate) eqn:He.
    + intros H Hle. destruct fuel' as [|fuel']; [lia|]. simpl. rewrite He.
      apply IH; [done | lia].
    + intros [= <-] _. destruct fuel'; simpl; by rewrite He.
Qed.

End safe_destination.

(** [safe_destination] agrees with its loop at every sufficient fuel. *)
Lemma safe_destination_loop_eq fs dst_folder filename fuel :
  size fs < fuel →
  safe_destination_loop fuel fs dst_folder (Path.stem filename)
    (Path.suffix filename) (dst_folder // filename) 2
  = Some (safe_destination fs dst_folder filename).
Proof.
  intros Hfuel. unfold safe_destination.
  destruct (safe_destination_loop_enough fs dst_folder (Path.stem filename)
              (Path.suffix filename) (S (size fs)) (dst_folder // filename) 2)
    as [p Hp]; [lia|].
  rewrite Hp. simpl.
  eapply safe_destination_loop_mono; [done | lia].
Qed.

Lemma safe_destination_free fs dst_folder filename :
  exists_ fs (dst_folder // filename) = false →
  safe_destination fs dst_folder filename = dst_folder // filename.
Proof. intros He. unfold safe_destination. simpl. by rewrite He. Qed.

Lemma safe_destination_taken fs dst_folder filename :
  exists_ fs (dst_folder // filename) = true →
  ∃ k, 2 ≤ k
    ∧ safe_destination fs dst_folder filename
      = dst_folder // numbered (Path.stem filename) k (Path.suffix filename)
    ∧ exists_ fs (safe_destination fs dst_folder filename) = false
    ∧ ∀ j, 2 ≤ j < k →
        exists_ fs (dst_folder
                    // numbered (Path.stem filename) j (Path.suffix filename))
        = true.
Proof.
  intros He.
  pose proof (safe_destination_loop_eq fs dst_folder filename (S (size fs))) as H.
  apply safe_destination_loop_Some in H as [[Hfree _]|(_ & k & Hk & Hp & Hfree & Hbelow)];
    [congruence | | lia].
  exists k. unfold numbered_path in *. by rewrite <- Hp.
Qed.

Lemma safe_destination_fresh fs dst_folder filename :
  exists_ fs (safe_destination fs dst_folder filename) = false.
Proof.
  destruct (exists_ fs (dst_folder // filename)) eqn:He.
  - by destruct (safe_destination_taken _ _ _ He) as (k & _ & _ & Hfree & _).
  - by rewrite safe_destination_free.
Qed.

(** C6: a free target is returned unchanged; a taken one is replaced by the
    first free name among ["{stem} ({k}){extension}"] for k = 2, 3, 4, ...,
    each ending in the extension of the file name. *)
Theorem safe_destination_spec (fs : filesystem) (dst_folder : path)
    (filename : string) :
  (exists_ fs (dst_folder // filename) = false →
   safe_destination fs dst_folder filename = dst_folder // filename)
  ∧ (exists_ fs (dst_folder // filename) = true →
     ∃ k, 2 ≤ k
       ∧ safe_destination fs dst_folder filename
         = dst_folder // (Path.stem filename +:+ " (" +:+ pretty k +:+ ")"
                          +:+ Path.suffix filename)
       ∧ exists_ fs (safe_destination fs dst_folder filename) = false
       ∧ ∀ j, 2 ≤ j < k →
           exists_ fs (dst_folder
                       // (Path.stem filename +:+ " (" +:+ pretty j +:+ ")"
                           +:+ Path.suffix filename)) = true).
Proof.
  split; [apply safe_destination_free | apply safe_destination_taken].
Qed.

Lemma safe_destination_spec_witness :
  safe_destination Scenario.three_files (Scenario.home // "images") "a.jpg"
  = Scenario.home // "images" // "a.jpg"
  ∧ ∃ k, 2 ≤ k
      ∧ safe_destination Scenario.reoccupied (Scenario.home // "images") "a.jpg"
        = Scenario.home // "images"
          // (Path.stem "a.jpg" +:+ " (" +:+ pretty k +:+ ")"
              +:+ Path.suffix "a.jpg")
      ∧ exists_ Scenario.reoccupied
          (safe_destination Scenario.reoccupied (Scenario.home // "images")
             "a.jpg") = false
      ∧ ∀ j, 2 ≤ j < k →
          exists_ Scenario.reoccupied
            (Scenario.home // "images"
             // (Path.stem "a.jpg" +:+ " (" +:+ pretty j +:+ ")"
                 +:+ Path.suffix "a.jpg")) = true.
Proof.
  split.
  - apply (proj1 (safe_destination_spec Scenario.three_files
                    (Scenario.home // "images") "a.jpg")).
    vm_compute; reflexivity.
  - apply (proj2 (safe_destination_spec Scenario.reoccupied
                    (Scenario.home // "images") "a.jpg")).
    vm_compute; reflexivity.
Defined.

(** The specification's test: the same name resolved twice, the first
    answer being taken before the second call, gives [ (2)] then [ (3)],
    each before the extension. *)
Example safe_destination_twice :
  let images := Scenario.home // "images" in
  let first := safe_destination Scenario.twice_planned images "a.jpg" in
  let second :=
    safe_destination (<[first := File ""]> Scenario.twice_planned) images
      "a.jpg" in
  first = images // "a (2).jpg" ∧ second = images // "a (3).jpg".
Proof. vm_compute. by split. Qed.

(** C9: the search stops.  The numbered names are pairwise distinct, so
    after at most [size fs] rounds one of them is free: from that fuel on
    the loop returns a path, the same at every fuel. *)
Theorem safe_destination_terminates (fs : filesystem) (dst_folder : path)
    (filename : string) :
  (∀ k k', numbered (Path.stem filename) k (Path.suffix filename)
           = numbered (Path.stem filename) k' (Path.suffix filename) → k = k')
  ∧ ∃ p, ∀ fuel, size fs < fuel →
      safe_destination_loop fuel fs dst_folder (Path.stem filename)
        (Path.suffix filename) (dst_folder // filename) 2 = Some p.
Proof.
  split; [intros k k'; apply numbered_inj|].
  exists (safe_destination fs dst_folder filename).
  intros fuel. apply safe_destination_loop_eq.
Qed.

(** ** Running the loops *)

Lemma bind_run {A B} (m : M A) (f : A → M B) (w : world) :
  (m ≫= f) w
  = match m w with
    | (Ok a, w') => f a w'
    | (Exit c, w') => (Exit c, w')
    | (Raise e, w') => (Raise e, w')
    end.
Proof. reflexivity. Qed.

Lemma world_eta (w : world) : World (fs w) (out w) = w.
Proof. by destruct w. Qed.

Lemma organize_loop_cons folder dry_run incl log_f p rest n w :
  organize_loop folder dry_run incl log_f (p :: rest) n w
  = if skipped (fs w) folder incl p
    then organize_loop folder dry_run incl log_f rest n w
    else (move_file p (planned_dst (fs w) folder p) dry_run log_f ;;
          organize_loop folder dry_run incl log_f rest (n + 1)) w.
Proof.
  unfold skipped, planned_dst. cbn [organize_loop].
  rewrite bind_run. unfold gets at 1. cbn [fst snd].
  destruct (is_dir (fs w) p); [done|].
  destruct (Str.startswith LOG_PREFIX (Path.name p)); [done|].
  by destruct (negb incl && bool_decide (Path.parent p ≠ folder)).
Qed.

Lemma plan_cons fs folder incl p rest :
  plan fs folder incl (p :: rest)
  = if skipped fs folder incl p then plan fs folder incl rest
    else (p, planned_dst fs folder p) :: plan fs folder incl rest.
Proof. unfold plan. simpl. by destruct (skipped fs folder incl p). Qed.

(** A dry run of the loop: the state of the file system stays, and the
    console receives the plan made against it. *)
Lemma organize_loop_dry folder incl log_f yielded n w :
  organize_loop folder true incl log_f yielded n w
  = (Ok (n + length (plan (fs w) folder incl yielded)),
     World (fs w)
       (out w ++ (uncurry MsgDryRunMove <$> plan (fs w) folder incl yielded))).
Proof.
  revert n w. induction yielded as [|p rest IH]; intros n w.
  - simpl. rewrite Nat.add_0_r, app_nil_r, world_eta. done.
  - rewrite organize_loop_cons, plan_cons.
    destruct (skipped (fs w) folder incl p); [apply IH|].
    rewrite bind_run. cbn [move_file print]. rewrite IH. cbn [fs out fmap list_fmap length].
    rewrite <- app_assoc. do 2 f_equal. lia.
Qed.

Lemma organize_not_a_directory now yielded folder dry_run incl w :
  is_dir (fs w) folder = false →
  organize now yielded folder dry_run incl w
  = (Exit 1, World (fs w) (out w ++ [MsgNotADirectory folder])).
Proof.
  intros Hd. unfold organize. rewrite bind_run. unfold gets at 1. by rewrite Hd.
Qed.

Lemma organize_dry now yielded folder incl w :
  is_dir (fs w) folder = true →
  organize now yielded folder true incl w
  = (Ok (),
     World (fs w)
       (out w ++ (uncurry MsgDryRunMove <$> plan (fs w) folder incl yielded)
        ++ [MsgProcessed (length (plan (fs w) folder incl yielded))])).
Proof.
  intros Hd. unfold organize. rewrite bind_run. unfold gets at 1. rewrite Hd.
  cbn [negb]. rewrite bind_run. cbn [mret M_ret]. rewrite bind_run.
  rewrite organize_loop_dry. rewrite bind_run. unfold print. cbn [mret M_ret fs out].
  by rewrite <- app_assoc.
Qed.

(** C5: with [dry_run] set, organize returns the file system it was given:
    nothing is moved, no directory and no log file appear. *)
Theorem organize_dry_run_unchanged (now : datetime) (yielded : list path)
    (folder : path) (include_subdirs : bool) (w : world) :
  fs (organize now yielded folder true include_subdirs w).2 = fs w.
Proof.
  destruct (is_dir (fs w) folder) eqn:Hd.
  - by rewrite organize_dry.
  - by rewrite organize_not_a_directory.
Qed.

Lemma undo_log_not_found log_file dry_run w :
  exists_ (fs w) log_file = false →
  undo log_file dry_run w
  = (Exit 1, World (fs w) (out w ++ [MsgLogNotFound log_file])).
Proof.
  intros He. unfold undo. rewrite bind_run. unfold gets at 1. by rewrite He.
Qed.

(** C8: a root that is not an existing directory makes organize report it
    and exit with status 1, and a log path that does not exist makes undo
    report it and exit with status 1; in both cases the file system is the
    one that was given, so no log was created. *)
Theorem usage_errors_exit_without_effect :
  (∀ now yielded folder dry_run include_subdirs w,
     is_dir (fs w) folder = false →
     organize now yielded folder dry_run include_subdirs w
     = (Exit 1, World (fs w) (out w ++ [MsgNotADirectory folder])))
  ∧ (∀ log_file dry_run w,
       exists_ (fs w) log_file = false →
       undo log_file dry_run w
       = (Exit 1, World (fs w) (out w ++ [MsgLogNotFound log_file]))).
Proof.
  split; [apply organize_not_a_directory | apply undo_log_not_found].
Qed.

Lemma usage_errors_exit_without_effect_witness :
  organize Scenario.now [] (Scenario.home // "c") false false
    (World Scenario.three_files [])
  = (Exit 1,
     World Scenario.three_files [MsgNotADirectory (Scenario.home // "c")])
  ∧ undo Scenario.log false (World Scenario.three_files [])
    = (Exit 1, World Scenario.three_files [MsgLogNotFound Scenario.log]).
Proof.
  split.
  - apply (proj1 usage_errors_exit_without_effect Scenario.now []
             (Scenario.home // "c") false false
             (World Scenario.three_files [])).
    vm_compute; reflexivity.
  - apply (proj2 usage_errors_exit_without_effect Scenario.log false
             (World Scenario.three_files [])).
    vm_compute; reflexivity.
Defined.

(** ** Undo: one record at a time *)

Lemma undo_loop_cons dry_run src dst rest w :
  undo_loop dry_run ((src, dst) :: rest) w
  = match undo_record dry_run src dst w with
    | (Ok _, w') => undo_loop dry_run rest w'
    | (Exit c, w') => (Exit c, w')
    | (Raise e, w') => (Raise e, w')
    end.
Proof. reflexivity. Qed.

Lemma undo_loop_app dry_run before after w w1 :
  undo_loop dry_run before w = (Ok (), w1) →
  undo_loop dry_run (before ++ after) w = undo_loop dry_run after w1.
Proof.
  revert w. induction before as [|[src dst] before IH]; intros w.
  - by intros [= ->].
  - rewrite <- app_comm_cons, !undo_loop_cons.
    destruct (undo_record dry_run src dst w) as [[[]| |] w']; [apply IH | done..].
Qed.

Lemma undo_record_missing dry_run src dst w :
  exists_ (fs w) dst = false →
  undo_record dry_run src dst w
  = (Ok (), World (fs w) (out w ++ [MsgMissing dst])).
Proof.
  intros He. unfold undo_record. rewrite bind_run. unfold gets at 1. by rewrite He.
Qed.

Lemma undo_parsed log_file dry_run text moves w :
  fs w !! log_file = Some (File text) →
  parse_log text = Some moves →
  undo log_file dry_run w = undo_loop dry_run (rev moves) w.
Proof.
  intros Hlog Hparse. unfold undo. rewrite bind_run. unfold gets at 1, exists_.
  rewrite Hlog. cbn [negb]. rewrite bind_run. unfold read_text.
  by rewrite Hlog, Hparse.
Qed.



(** ** Paths and file-system operations *)

Lemma parent_child p n : Path.parent (p // n) = p.
Proof. apply removelast_last. Qed.

Lemma name_child p n : Path.name (p // n) = n.
Proof. apply last_last. Qed.

Lemma child_inj p q n m : p // n = q // m → p = q ∧ n = m.
Proof. apply app_inj_tail. Qed.

Lemma length_child p n : length (p // n) = S (length p).
Proof. unfold Path.child. rewrite length_app. simpl. lia. Qed.

Lemma child_ne_self p n : p // n ≠ p.
Proof. intros H. apply (f_equal length) in H. rewrite length_child in H. lia. Qed.

Lemma grandchild_ne_child p a b n : p // a // b ≠ p // n.
Proof. intros H. apply (f_equal length) in H. rewrite !length_child in H. lia. Qed.

Lemma grandchild_ne_self p a b : p // a // b ≠ p.
Proof. intros H. apply (f_equal length) in H. rewrite !length_child in H. lia. Qed.

(** A path other than the root is its parent followed by its name. *)
Lemma child_parent_name p : p ≠ [] → p = Path.parent p // Path.name p.
Proof. intros H. by apply app_removelast_last. Qed.

Lemma exists_lookup fs p : exists_ fs p = true ↔ is_Some (fs !! p).
Proof.
  unfold exists_. destruct (fs !! p); split; done || by intros [? ?].
Qed.

Lemma not_exists_lookup fs p : exists_ fs p = false ↔ fs !! p = None.
Proof. unfold exists_. by destruct (fs !! p). Qed.

Lemma is_dir_lookup fs p : is_dir fs p = true ↔ fs !! p = Some Dir.
Proof. unfold is_dir. by destruct (fs !! p) as [[]|]. Qed.

Lemma mkdir_parents_existing fs rev_path :
  fs !! rev rev_path = Some Dir → mkdir_parents rev_path fs = inr fs.
Proof. intros H. destruct rev_path; simpl in *; by rewrite H. Qed.

Lemma mkdir_parents_child fs p n :
  fs !! p = Some Dir →
  (∀ c, fs !! (p // n) ≠ Some (File c)) →
  mkdir_parents (rev (p // n)) fs = inr (with_dir fs (p // n)).
Proof.
  intros Hp Hn. unfold Path.child, with_dir in *. rewrite rev_unit.
  cbn [mkdir_parents]. change (rev (n :: rev p)) with (rev (rev p) ++ [n]).
  rewrite rev_involutive.
  destruct (fs !! (p ++ [n])) as [[c|]|]; [by destruct (Hn c) | done |].
  by rewrite Hp.
Qed.

Lemma with_dir_lookup fs p q :
  with_dir fs p !! q
  = if decide (q = p) then Some (default Dir (fs !! p)) else fs !! q.
Proof.
  unfold with_dir. case_decide as Hq.
  - subst q. destruct (fs !! p) eqn:H; simpl; [done | by rewrite lookup_insert_eq].
  - destruct (fs !! p); [done | by rewrite lookup_insert_ne].
Qed.

(** Making a directory keeps every entry that was there. *)
Lemma with_dir_keeps fs p q n : fs !! q = Some n → with_dir fs p !! q = Some n.
Proof.
  intros H. rewrite with_dir_lookup. case_decide; [subst; by rewrite H | done].
Qed.

Lemma with_dir_is_dir fs p :
  (∀ c, fs !! p ≠ Some (File c)) → with_dir fs p !! p = Some Dir.
Proof.
  intros H. rewrite with_dir_lookup, decide_True by done.
  destruct (fs !! p) as [[c|]|]; [by destruct (H c) | done..].
Qed.

Lemma shutil_move_file fs src dst c :
  fs !! src = Some (File c) →
  fs !! dst = None →
  fs !! Path.parent dst = Some Dir →
  shutil_move src dst fs = inr (<[dst := File c]> (delete src fs)).
Proof.
  intros Hsrc Hdst Hparent. unfold shutil_move, is_dir.
  by rewrite Hsrc, Hdst, Hparent.
Qed.

(** ** More on the collision resolver *)

Lemma safe_destination_child fs dst_folder filename :
  ∃ n, safe_destination fs dst_folder filename = dst_folder // n.
Proof.
  destruct (exists_ fs (dst_folder // filename)) eqn:He.
  - destruct (safe_destination_taken _ _ _ He) as (k & _ & -> & _). by eexists.
  - rewrite safe_destination_free by done. by eexists.
Qed.

(** Taking more names in the folder does not change the answer, as long as
    the answer itself stays free. *)
Lemma safe_destination_stable fs fs' dst_folder filename :
  (∀ n, exists_ fs (dst_folder // n) = true →
        exists_ fs' (dst_folder // n) = true) →
  exists_ fs' (safe_destination fs dst_folder filename) = false →
  safe_destination fs' dst_folder filename
  = safe_destination fs dst_folder filename.
Proof.
  intros Hmore Hfree.
  destruct (exists_ fs (dst_folder // filename)) eqn:He.
  - destruct (safe_destination_taken _ _ _ He) as (k & Hk & Hr & _ & Hbelow).
    destruct (safe_destination_taken fs' dst_folder filename (Hmore _ He))
      as (k' & Hk' & Hr' & Hfree' & Hbelow').
    rewrite Hr in Hfree |- *. rewrite Hr' in Hfree' |- *.
    destruct (Nat.lt_trichotomy k k') as [Hlt|[->|Hlt]]; [|done|].
    + rewrite Hbelow' in Hfree by lia. done.
    + rewrite (Hmore _ (Hbelow k' ltac:(lia))) in Hfree'. done.
  - rewrite (safe_destination_free fs) in Hfree |- * by done.
    by apply safe_destination_free.
Qed.

(** ** The log's name and the bucket names *)

Lemma startswith_append p s : Str.startswith p (p +:+ s) = true.
Proof.
  induction p as [|c p IH]; [done|].
  rewrite append_cons. cbn [Str.startswith]. by rewrite decide_True.
Qed.

Lemma log_name_prefix now : Str.startswith LOG_PREFIX (log_name now) = true.
Proof. apply startswith_append. Qed.

Lemma pick_bucket_no_prefix ext :
  Str.startswith LOG_PREFIX (pick_bucket ext) = false.
Proof.
  unfold pick_bucket. case_decide; [done|].
  destruct (search_table _ _) as [b|] eqn:Hs; [|done].
  apply search_table_Some in Hs as (exts & Hin & _). unfold CATEGORIES in Hin.
  repeat (apply elem_of_cons in Hin as [[= -> ->]|Hin]; [done|]).
  by apply elem_of_nil in Hin.
Qed.

Lemma bucket_ne_log_name ext now : pick_bucket ext ≠ log_name now.
Proof.
  intros H. pose proof (pick_bucket_no_prefix ext) as Hb.
  rewrite H, log_name_prefix in Hb. done.
Qed.

Lemma planned_dst_child fs folder p :
  ∃ n, planned_dst fs folder p
       = folder // pick_bucket (Path.suffix (Path.name p)) // n.
Proof. apply safe_destination_child. Qed.

Lemma planned_dst_fresh fs folder p : fs !! planned_dst fs folder p = None.
Proof. apply not_exists_lookup, safe_destination_fresh. Qed.

(** ** One real move *)

Lemma move_file_real w folder bucket src c log text filename :
  let dst := safe_destination (fs w) (folder // bucket) filename in
  fs w !! folder = Some Dir →
  (∀ c', fs w !! (folder // bucket) ≠ Some (File c')) →
  fs w !! src = Some (File c) →
  fs w !! log = Some (File text) →
  log ≠ src → log ≠ dst →
  move_file src dst false (Some log) w
  = (Ok (),
     World (<[log := File (text +:+ record_line src dst)]>
              (<[dst := File c]> (delete src (with_dir (fs w) (folder // bucket)))))
       (out w ++ [MsgMoved (Path.name src) bucket (Path.name dst)])).
Proof.
  intros dst Hfolder Hbucket Hsrc Hlog Hls Hld.
  pose proof (safe_destination_fresh (fs w) (folder // bucket) filename) as Hfree.
  apply not_exists_lookup in Hfree. fold dst in Hfree.
  destruct (safe_destination_child (fs w) (folder // bucket) filename) as [n Hn].
  fold dst in Hn.
  assert (Path.parent dst = folder // bucket) as Hparent
    by (rewrite Hn; apply parent_child).
  unfold move_file. rewrite bind_run. unfold ensure_dir, lift_fs at 1.
  rewrite Hparent, (mkdir_parents_child _ _ _ Hfolder Hbucket).
  rewrite bind_run. unfold lift_fs at 1. cbn [fs out].
  rewrite (shutil_move_file _ src dst c).
  - cbn [fs out]. rewrite bind_run. unfold lift_fs, write. cbn [fs out].
    rewrite lookup_insert_ne, lookup_delete_ne by done.
    rewrite (with_dir_keeps _ _ _ _ Hlog). unfold print. cbn [fs out].
    by rewrite name_child.
  - by apply with_dir_keeps.
  - rewrite with_dir_lookup, decide_False; [done|].
    rewrite Hn. apply child_ne_self.
  - rewrite Hparent. by apply with_dir_is_dir.
Qed.

(** ** The plan *)

Lemma elem_of_plan fs folder incl yielded s d :
  (s, d) ∈ plan fs folder incl yielded
  ↔ s ∈ yielded ∧ skipped fs folder incl s = false
    ∧ d = planned_dst fs folder s.
Proof.
  unfold plan. rewrite list_elem_of_fmap. split.
  - intros (p & [= -> ->] & Hin). apply list_elem_of_In, filter_In in Hin as [Hin Hs].
    apply list_elem_of_In in Hin. by apply negb_true_iff in Hs.
  - intros (Hin & Hs & ->). exists s. split; [done|].
    apply list_elem_of_In, filter_In. split; [by apply list_elem_of_In|].
    by apply negb_true_iff.
Qed.

Lemma elem_of_plan_sources fs folder incl yielded s :
  s ∈ (plan fs folder incl yielded).*1
  ↔ s ∈ yielded ∧ skipped fs folder incl s = false.
Proof.
  rewrite list_elem_of_fmap. split.
  - intros ([s' d] & -> & Hin). apply elem_of_plan in Hin as (? & ? & ?). simpl. eauto.
  - intros [Hin Hs]. exists (s, planned_dst fs folder s). split; [done|].
    by apply elem_of_plan.
Qed.

Lemma elem_of_plan_destinations fs folder incl yielded d :
  d ∈ (plan fs folder incl yielded).*2
  ↔ ∃ s, s ∈ yielded ∧ skipped fs folder incl s = false
         ∧ d = planned_dst fs folder s.
Proof.
  rewrite list_elem_of_fmap. split.
  - intros ([s d'] & -> & Hin). apply elem_of_plan in Hin as (? & ? & ?). simpl. eauto.
  - intros (s & Hin & Hs & ->). exists (s, planned_dst fs folder s).
    split; [done|]. by apply elem_of_plan.
Qed.

(** A path the loop does not skip, without recursion, is a child of the
    root that is not a directory and does not carry the log prefix. *)
Lemma not_skipped_inv fs folder p :
  fs !! folder = Some Dir →
  skipped fs folder false p = false →
  is_dir fs p = false
  ∧ Str.startswith LOG_PREFIX (Path.name p) = false
  ∧ p = folder // Path.name p.
Proof.
  intros Hfolder Hs. unfold skipped in Hs.
  apply orb_false_iff in Hs as [Hs Hparent].
  apply orb_false_iff in Hs as [Hdir Hprefix].
  cbn [negb andb] in Hparent. apply bool_decide_eq_false in Hparent.
  apply dec_stable in Hparent. repeat split; [done..|].
  rewrite <- Hparent. apply child_parent_name. intros ->.
  simpl in Hparent. subst folder. unfold is_dir in Hdir. by rewrite Hfolder in Hdir.
Qed.

Lemma log_is_skipped fs folder incl now :
  skipped fs folder incl (folder // log_name now) = true.
Proof.
  unfold skipped. rewrite name_child, log_name_prefix.
  by rewrite orb_true_r.
Qed.

(** ** The real organize loop

    The loop is followed against a snapshot [fs0]: as long as the planned
    destinations are pairwise distinct, each step finds the file system
    changed only where earlier steps moved files, and decides as the plan
    made on the snapshot does. *)

Section real_run.
Context (fs0 : filesystem) (folder : path) (now : datetime).
Hypothesis Hroot0 : fs0 !! folder = Some Dir.

Local Abbreviation log := (folder // log_name now).

Lemma skipped_same yielded fsi p :
  loop_invariant fs0 folder log yielded fsi → p ∈ yielded →
  skipped fsi folder false p = skipped fs0 folder false p.
Proof.
  intros (Hroot & Hsame & _) Hin.
  destruct (decide (p = log)) as [->|Hlog]; [by rewrite !log_is_skipped|].
  unfold skipped. cbn [negb andb].
  destruct (decide (Path.parent p = folder)) as [Hp|Hp];
    [|by rewrite !bool_decide_eq_true_2, !orb_true_r].
  destruct (decide (p = [])) as [->|Hnil].
  - simpl in Hp. subst folder. unfold is_dir. by rewrite Hroot, Hroot0.
  - pose proof (child_parent_name p Hnil) as E. rewrite Hp in E.
    assert (fsi !! p = fs0 !! p) as Hl.
    { rewrite E. apply Hsame; by rewrite <- E. }
    unfold is_dir. by rewrite Hl.
Qed.

Lemma loop_invariant_tail p rest fsi :
  loop_invariant fs0 folder log (p :: rest) fsi →
  loop_invariant fs0 folder log rest fsi.
Proof.
  intros (Hroot & Hsame & Hplan & Hbucket). repeat split; [done|..].
  - intros n Hin. apply Hsame. by right.
  - intros q Hin. apply Hplan. by right.
  - intros q c Hin. apply Hbucket. by right.
Qed.

Lemma executed_nil fsi text :
  fsi !! log = Some (File text) → executed fs0 fsi fsi log text [].
Proof.
  intros Hlog. repeat split.
  - simpl. by rewrite append_nil_r.
  - by apply elem_of_nil in H.
  - by apply elem_of_nil in H.
  - by apply elem_of_nil in H.
Qed.

Lemma loop_invariant_step p rest fsi c text :
  NoDup (p :: rest) →
  NoDup (plan fs0 folder false (p :: rest)).*2 →
  (∀ q, q ∈ p :: rest → q ≠ log → is_Some (fs0 !! q)) →
  loop_invariant fs0 folder log (p :: rest) fsi →
  skipped fs0 folder false p = false →
  loop_invariant fs0 folder log rest
    (<[log := File text]>
       (<[planned_dst fs0 folder p := File c]>
          (delete p
             (with_dir fsi
                (folder // pick_bucket (Path.suffix (Path.name p))))))).
Proof.
  intros Hnodup Hdsts Hexists (Hroot & Hsame & Hplan & Hbucket) Hp.
  destruct (not_skipped_inv _ _ _ Hroot0 Hp) as (Hpdir & Hpprefix & Ep).
  destruct (planned_dst_child fs0 folder p) as [nd Ed].
  apply NoDup_cons in Hnodup as [Hfresh Hnodup].
  rewrite plan_cons, Hp in Hdsts. cbn [fmap list_fmap snd] in Hdsts.
  apply NoDup_cons in Hdsts as [Hd Hdsts].
  set (b := pick_bucket (Path.suffix (Path.name p))) in *.
  set (d := planned_dst fs0 folder p) in *.
  assert (p ≠ folder) as Hpf by (rewrite Ep; apply child_ne_self).
  assert (d ≠ folder) as Hdf by (rewrite Ed; apply grandchild_ne_self).
  assert (log ≠ folder) as Hlf by apply child_ne_self.
  repeat split.
  - rewrite !lookup_insert_ne, lookup_delete_ne by done.
    by apply with_dir_keeps.
  - intros n Hin Hn.
    destruct (Hexists (folder // n)) as [x Hx]; [by right | done |].
    rewrite lookup_insert_ne by done.
    rewrite lookup_insert_ne by (rewrite Ed; apply grandchild_ne_child).
    rewrite lookup_delete_ne by (by intros ->).
    rewrite Hx. apply with_dir_keeps. rewrite <- Hx. apply Hsame; [by right | done].
  - intros p' Hin Hp'.
    rewrite <- (Hplan p') by (by right || done).
    destruct (not_skipped_inv _ _ _ Hroot0 Hp') as (_ & _ & Ep').
    apply safe_destination_stable.
    + intros n. rewrite !exists_lookup. intros [x Hx].
      rewrite lookup_insert_ne by (apply not_eq_sym, grandchild_ne_child).
      destruct (decide (d = folder // pick_bucket (Path.suffix (Path.name p')) // n))
        as [<-|Hne]; [by rewrite lookup_insert_eq|].
      rewrite lookup_insert_ne by done.
      rewrite lookup_delete_ne
        by (rewrite Ep; apply not_eq_sym, grandchild_ne_child).
      rewrite (with_dir_keeps _ _ _ _ Hx). done.
    + apply not_exists_lookup. fold (planned_dst fsi folder p').
      destruct (planned_dst_child fsi folder p') as [nd' Ed'].
      rewrite lookup_insert_ne by (rewrite Ed'; apply not_eq_sym, grandchild_ne_child).
      rewrite lookup_insert_ne.
      2:{ intros Heq. apply Hd. apply elem_of_plan_destinations.
          exists p'. repeat split; [done..|].
          rewrite <- (Hplan p') by (by right || done). done. }
      rewrite lookup_delete_ne
        by (rewrite Ep, Ed'; apply not_eq_sym, grandchild_ne_child).
      rewrite with_dir_lookup, decide_False
        by (rewrite Ed'; apply grandchild_ne_child).
      apply planned_dst_fresh.
  - intros p' c' Hin Hp'.
    rewrite lookup_insert_ne.
    2:{ intros Heq. apply child_inj in Heq as [_ Heq].
        symmetry in Heq. by apply bucket_ne_log_name in Heq. }
    rewrite lookup_insert_ne by (rewrite Ed; apply grandchild_ne_child).
    rewrite lookup_delete. case_decide; [done|].
    rewrite with_dir_lookup. case_decide as Hb.
    + destruct (fsi !! (folder // b)) as [[c''|]|] eqn:Hfb; try done.
      destruct (Hbucket p c''); [by left | done | done].
    + apply Hbucket; [by right | done].
Qed.

Lemma organize_loop_real yielded : ∀ n fsi outi text,
  NoDup yielded →
  NoDup (plan fs0 folder false yielded).*2 →
  (∀ p, p ∈ yielded → p ≠ log → is_Some (fs0 !! p)) →
  loop_invariant fs0 folder log yielded fsi →
  fsi !! log = Some (File text) →
  ∃ fsf,
    organize_loop folder false false (Some log) yielded n (World fsi outi)
    = (Ok (n + length (plan fs0 folder false yielded)),
       World fsf (outi ++ moved_messages (plan fs0 folder false yielded)))
    ∧ executed fs0 fsi fsf log text (plan fs0 folder false yielded).
Proof.
  induction yielded as [|p rest IH];
    intros n fsi outi text Hnodup Hdsts Hexists Hinv Hlog.
  { exists fsi. split; [|by apply executed_nil].
    cbn. by rewrite Nat.add_0_r, app_nil_r. }
  rewrite organize_loop_cons. cbn [fs out].
  rewrite (skipped_same _ _ _ Hinv) by left.
  destruct (skipped fs0 folder false p) eqn:Hp.
  { rewrite plan_cons, Hp in Hdsts |- *.
    apply IH; [by apply NoDup_cons in Hnodup as [_ ?] | done | | | done].
    - intros q Hq. apply Hexists. by right.
    - by eapply loop_invariant_tail. }
  pose proof (loop_invariant_step p rest fsi) as Hstep.
  destruct Hinv as (Hroot & Hsame & Hplan & Hbucket).
  destruct (not_skipped_inv _ _ _ Hroot0 Hp) as (Hpdir & Hpprefix & Ep).
  assert (p ≠ log) as Hpl.
  { intros ->. by rewrite name_child, log_name_prefix in Hpprefix. }
  assert (∃ c, fs0 !! p = Some (File c)) as [c Hc].
  { destruct (Hexists p) as [[c|] Hx]; [by left | done | by eexists |].
    unfold is_dir in Hpdir. by rewrite Hx in Hpdir. }
  assert (fsi !! p = Some (File c)) as Hci.
  { rewrite <- Hc, Ep. apply Hsame; [rewrite <- Ep; by left | by rewrite <- Ep]. }
  destruct (planned_dst_child fs0 folder p) as [nd Ed].
  set (b := pick_bucket (Path.suffix (Path.name p))) in *.
  pose proof (move_file_real (World fsi outi) folder b p c log text
                (Path.name p)) as Hmove.
  cbn [fs out] in Hmove. fold b in Hmove.
  change (safe_destination fsi (folder // b) (Path.name p))
    with (planned_dst fsi folder p) in Hmove.
  rewrite (Hplan p) in Hmove by (by left || done).
  rewrite bind_run. cbn [fs]. rewrite (Hplan p) by (by left || done).
  rewrite Hmove; [| done | by intros c'; apply (Hbucket p); [left|] | done..
                  | by apply not_eq_sym | rewrite Ed; apply not_eq_sym, grandchild_ne_child].
  clear Hmove.
  set (d := planned_dst fs0 folder p) in *.
  set (fs' := <[log := _]> _).
  apply NoDup_cons in Hnodup as Hnodup'. destruct Hnodup' as [Hfresh Hnodup'].
  pose proof Hdsts as Hdsts'.
  rewrite plan_cons, Hp in Hdsts'. cbn [fmap list_fmap snd] in Hdsts'.
  apply NoDup_cons in Hdsts' as [Hd Hdsts'].
  destruct (IH (n + 1) fs' (outi ++ [MsgMoved (Path.name p) b (Path.name d)])
              (text +:+ record_line p d)) as (fsf & Hrun & Hlogf & Hpairs & Hframe).
  { done. }
  { done. }
  { intros q Hq. apply Hexists. by right. }
  { apply Hstep; done. }
  { apply lookup_insert_eq. }
  exists fsf. rewrite plan_cons, Hp. fold d.
  assert (Path.parent d = folder // b) as Hparent
    by (rewrite Ed; apply parent_child).
  assert (fs' !! p = None) as Hp'.
  { unfold fs'. rewrite lookup_insert_ne by (by apply not_eq_sym).
    rewrite lookup_insert_ne by (rewrite Ep, Ed; apply grandchild_ne_child).
    apply lookup_delete_eq. }
  assert (fs' !! d = Some (File c)) as Hd'.
  { unfold fs'. rewrite lookup_insert_ne
      by (rewrite Ed; apply not_eq_sym, grandchild_ne_child).
    apply lookup_insert_eq. }
  assert (p ≠ folder // b) as Hpb.
  { intros Heq. apply (Hbucket p c); [by left | done |]. fold b. by rewrite <- Heq. }
  assert (fs' !! (folder // b) = Some Dir) as Hb'.
  { unfold fs'. rewrite lookup_insert_ne.
    2:{ intros Heq. apply child_inj in Heq as [_ Heq].
        symmetry in Heq. by apply bucket_ne_log_name in Heq. }
    rewrite lookup_insert_ne by (rewrite Ed; apply grandchild_ne_child).
    rewrite lookup_delete_ne by done.
    apply with_dir_is_dir. intros c'. apply (Hbucket p); [by left | done]. }
  assert (∀ s' d', (s', d') ∈ plan fs0 folder false rest →
            s' ∈ rest ∧ skipped fs0 folder false s' = false
            ∧ (∃ n', s' = folder // n')
            ∧ ∃ n', d' = folder // pick_bucket (Path.suffix (Path.name s')) // n')
    as Hshape.
  { intros s' d' (Hin & Hs' & ->)%elem_of_plan.
    destruct (not_skipped_inv _ _ _ Hroot0 Hs') as (_ & _ & Es').
    repeat split; [done.. | by eexists | apply planned_dst_child]. }
  assert (∀ q, q ∈ (plan fs0 folder false rest).*1 →
            ∃ d', (q, d') ∈ plan fs0 folder false rest) as Hsrc.
  { intros q ([s' d'] & -> & Hin)%list_elem_of_fmap. by exists d'. }
  assert (∀ q, q ∈ (plan fs0 folder false rest).*2 →
            ∃ s', (s', q) ∈ plan fs0 folder false rest) as Hdst.
  { intros q ([s' d'] & -> & Hin)%list_elem_of_fmap. by exists s'. }
  assert (∀ q, q ∈ Path.parent <$> (plan fs0 folder false rest).*2 →
            ∃ s' d', (s', d') ∈ plan fs0 folder false rest
                     ∧ q = Path.parent d') as Hpar.
  { intros q (x & -> & Hx)%list_elem_of_fmap.
    apply Hdst in Hx as [s' Hx]. by exists s', x. }
  assert (∀ s' d', (s', d') ∈ plan fs0 folder false rest →
            Path.parent d' ≠ p) as Hparp.
  { intros s' d' Hin Heq.
    apply Hshape in Hin as (Hin & Hs' & _ & n' & ->).
    rewrite parent_child in Heq.
    apply (Hbucket s' c); [by right | done |]. by rewrite Heq. }
  split; [|split; [|split]].
  - rewrite Hrun. cbn [length moved_messages fmap list_fmap fst snd].
    rewrite <- app_assoc, Hparent, name_child. do 2 f_equal. lia.
  - rewrite Hlogf. cbn [log_text]. by rewrite append_assoc.
  - intros s' d' [[= -> ->]|Hin]%elem_of_cons; [|by apply Hpairs].
    rewrite Hparent. split; [|split].
    + rewrite Hframe; [done | done | | |].
      * intros [d' Hin]%Hsrc. by apply Hshape in Hin as (Hin & _).
      * intros [s' Hin]%Hdst.
        apply Hshape in Hin as (_ & _ & _ & n' & Hn').
        rewrite Ep in Hn'. by eapply grandchild_ne_child.
      * intros (s' & d' & Hin & Heq)%Hpar. by eapply Hparp.
    + rewrite Hc, Hframe; [done | | | done |].
      * rewrite Ed. apply grandchild_ne_child.
      * intros [d' Hin]%Hsrc.
        apply Hshape in Hin as (_ & _ & [n' Hn'] & _).
        rewrite Ed in Hn'. by eapply grandchild_ne_child.
      * intros (s' & d' & Hin & Heq)%Hpar.
        apply Hshape in Hin as (_ & _ & _ & n' & Hn').
        rewrite Hn', parent_child, Ed in Heq. by eapply grandchild_ne_child.
    + destruct (decide (folder // b
                        ∈ Path.parent <$> (plan fs0 folder false rest).*2))
        as [Hin|Hnotin].
      * apply Hpar in Hin as (s' & d' & Hin & ->). by apply Hpairs in Hin as (_ & _ & ?).
      * rewrite Hframe; [done | | | | done].
        -- intros Heq. apply child_inj in Heq as [_ Heq].
           by apply bucket_ne_log_name in Heq.
        -- intros [d' Hin]%Hsrc.
           apply Hshape in Hin as (Hin & Hs' & [n' Hn'] & _).
           destruct (not_skipped_inv _ _ _ Hroot0 Hs') as (Hsdir & Hsprefix & _).
           assert (folder // b ≠ log) as Hbl.
           { intros Heq. by rewrite Heq, name_child, log_name_prefix in Hsprefix. }
           destruct (Hexists (folder // b)) as [[c'|] Hx];
             [by right | done | | by unfold is_dir in Hsdir; rewrite Hx in Hsdir].
           apply (Hbucket p c'); [by left | done |]. fold b.
           rewrite <- Hx. rewrite Hn'.
           apply Hsame; [by rewrite <- Hn'; right | by rewrite <- Hn'].
        -- intros [s' Hin]%Hdst.
           apply Hshape in Hin as (_ & _ & _ & n' & Hn').
           symmetry in Hn'. by eapply grandchild_ne_child.
  - intros q Hql Hqs Hqd Hqp.
    cbn [fmap list_fmap fst snd] in Hqs, Hqd, Hqp.
    apply not_elem_of_cons in Hqs as [Hqs1 Hqs].
    apply not_elem_of_cons in Hqd as [Hqd1 Hqd].
    apply not_elem_of_cons in Hqp as [Hqp1 Hqp]. rewrite Hparent in Hqp1.
    rewrite Hframe by done. unfold fs'.
    rewrite !lookup_insert_ne, lookup_delete_ne by (by apply not_eq_sym).
    by rewrite with_dir_lookup, decide_False.
Qed.
End real_run.

(** ** A whole real run *)

Lemma plan_nil fs folder incl : plan fs folder incl [] = [].
Proof. reflexivity. Qed.

(** The log, if it is listed, is not a candidate. *)
Lemma plan_without_log fs folder incl now yielded :
  plan fs folder incl
    (List.filter (λ p, bool_decide (p ≠ folder // log_name now)) yielded)
  = plan fs folder incl yielded.
Proof.
  induction yielded as [|p rest IH]; [done|]. cbn [List.filter].
  case_bool_decide as Hp.
  - rewrite !plan_cons, IH. done.
  - subst p.
    by rewrite plan_cons, log_is_skipped.
Qed.

Lemma reported_dry_run pairs n :
  reported ((uncurry MsgDryRunMove <$> pairs) ++ [MsgProcessed n]) = pairs.
Proof.
  induction pairs as [|[s d] pairs IH]; [done|]. cbn. by rewrite IH.
Qed.

Lemma open_write_log fs folder name :
  fs !! folder = Some Dir →
  fs !! (folder // name) ≠ Some Dir →
  open_write (folder // name) fs = inr (<[folder // name := File ""]> fs).
Proof.
  intros Hfolder Hlog. unfold open_write. rewrite parent_child, Hfolder.
  by destruct (fs !! (folder // name)) as [[]|].
Qed.

Lemma loop_invariant_start fs0 folder now yielded :
  fs0 !! folder = Some Dir →
  (∀ s d c, (s, d) ∈ plan fs0 folder false yielded →
            fs0 !! Path.parent d ≠ Some (File c)) →
  loop_invariant fs0 folder (folder // log_name now) yielded
    (<[folder // log_name now := File ""]> fs0).
Proof.
  intros Hroot Hbuckets. repeat split.
  - by rewrite lookup_insert_ne by apply child_ne_self.
  - intros n _ Hn. by rewrite lookup_insert_ne.
  - intros p Hin Hp. apply safe_destination_stable.
    + intros n. rewrite !exists_lookup.
      by rewrite lookup_insert_ne by (apply not_eq_sym, grandchild_ne_child).
    + apply not_exists_lookup. fold (planned_dst fs0 folder p).
      destruct (planned_dst_child fs0 folder p) as [n Hn].
      rewrite lookup_insert_ne
        by (rewrite Hn; apply not_eq_sym, grandchild_ne_child).
      apply planned_dst_fresh.
  - intros p c Hin Hp.
    rewrite lookup_insert_ne.
    2:{ intros Heq. apply child_inj in Heq as [_ Heq].
        symmetry in Heq. by apply bucket_ne_log_name in Heq. }
    destruct (planned_dst_child fs0 folder p) as [n Hn].
    specialize (Hbuckets p (planned_dst fs0 folder p) c).
    rewrite Hn, parent_child in Hbuckets. apply Hbuckets.
    rewrite <- Hn. by apply elem_of_plan.
Qed.

Lemma organize_real fs0 folder now yielded outi :
  let log := folder // log_name now in
  let pairs := plan fs0 folder false yielded in
  fs0 !! folder = Some Dir →
  fs0 !! log ≠ Some Dir →
  NoDup yielded →
  (∀ p, p ∈ yielded → p ≠ log → is_Some (fs0 !! p)) →
  NoDup pairs.*2 →
  (∀ s d c, (s, d) ∈ pairs → fs0 !! Path.parent d ≠ Some (File c)) →
  ∃ fsf,
    organize now yielded folder false false (World fs0 outi)
    = (Ok (),
       World fsf (outi ++ moved_messages pairs
                  ++ [MsgLogSaved log; MsgProcessed (length pairs)]))
    ∧ executed fs0 (<[log := File ""]> fs0) fsf log "" pairs.
Proof.
  intros log pairs Hroot Hlog Hnodup Hexists Hdsts Hbuckets. subst log pairs.
  destruct (organize_loop_real fs0 folder now Hroot yielded 0
              (<[folder // log_name now := File ""]> fs0) outi "")
    as (fsf & Hrun & Hexec);
    [done.. | by apply loop_invariant_start | apply lookup_insert_eq |].
  exists fsf. split; [|done].
  unfold organize. rewrite bind_run. unfold gets at 1, is_dir. cbn [fs].
  rewrite Hroot. cbn [negb]. rewrite bind_run.
  rewrite bind_run. unfold lift_fs at 1. cbn [fs out].
  rewrite (open_write_log _ _ _ Hroot Hlog).
  cbn [mret M_ret]. rewrite bind_run, Hrun.
  rewrite bind_run. unfold print. cbn [fs out].
  by rewrite <- !app_assoc.
Qed.




(** ** A run without candidates *)

Lemma organize_loop_all_skipped folder dry_run incl log_f yielded n w :
  Forall (λ p, skipped (fs w) folder incl p = true) yielded →
  organize_loop folder dry_run incl log_f yielded n w = (Ok n, w).
Proof.
  induction 1 as [|p rest Hp _ IH]; [done|].
  by rewrite organize_loop_cons, Hp.
Qed.

Lemma is_dir_insert_file fs p q c :
  is_dir fs p = false → is_dir (<[p := File c]> fs) q = is_dir fs q.
Proof.
  intros Hp. unfold is_dir in *. rewrite lookup_insert. case_decide; [|done].
  subst q. simpl. by destruct (fs !! p) as [[]|].
Qed.

Lemma skipped_insert_file fs folder incl p q c :
  is_dir fs p = false →
  skipped (<[p := File c]> fs) folder incl q = skipped fs folder incl q.
Proof. intros Hp. unfold skipped. by rewrite is_dir_insert_file. Qed.




(** ** Undo on an occupied source *)

(** What undo does with a record whose destination exists while the
    original source is occupied: the file goes back to the source's folder
    under the name of the moved destination, made free by the resolver. *)
Lemma undo_record_occupied src dst w :
  exists_ (fs w) dst = true →
  exists_ (fs w) src = true →
  undo_record true src dst w
  = (Ok (),
     World (fs w)
       (out w ++ [MsgDryRunUndo dst
                    (safe_destination (fs w) (Path.parent src) (Path.name dst))])).
Proof.
  intros Hdst Hsrc. unfold undo_record. rewrite bind_run. unfold gets at 1.
  rewrite Hdst. rewrite bind_run. unfold gets at 1. by rewrite Hsrc.
Qed.

(** C2 on the code: the record says [a.jpg] went to [images/a (3).jpg],
    and [a.jpg] is occupied again.  Undo restores the file as [a (3).jpg],
    the moved destination's name, while the resolver applied to the
    original source's name gives [a (2).jpg]. *)
Theorem undo_collision_uses_destination_name :
  let src := Scenario.home // "a.jpg" in
  let dst := Scenario.home // "images" // "a (3).jpg" in
  let after := undo Scenario.log false (World Scenario.reoccupied []) in
  parse_log (record_line src dst) = Some [(src, dst)]
  ∧ after.1 = Ok ()
  ∧ out after.2 = [MsgUndid dst (Scenario.home // "a (3).jpg")]
  ∧ fs after.2 !! (Scenario.home // "a (3).jpg") = Some (File "moved")
  ∧ fs after.2 !! src = Some (File "new")
  ∧ safe_destination Scenario.reoccupied (Path.parent src) (Path.name src)
    = Scenario.home // "a (2).jpg"
  ∧ fs after.2 !! (Scenario.home // "a (2).jpg") = None.
Proof. by vm_compute. Qed.

(** ** Reading a log back *)

Lemma append_nil_l s : "" +:+ s = s.
Proof. reflexivity. Qed.

Lemma mentions_append c s t :
  Str.mentions c (s +:+ t) = Str.mentions c s || Str.mentions c t.
Proof.
  induction s as [|a s IH]; [done|].
  rewrite append_cons. cbn [Str.mentions]. by rewrite IH, orb_assoc.
Qed.

Lemma universal_newlines_id s :
  Str.mentions Str.CR s = false → Str.universal_newlines s = s.
Proof.
  induction s as [|c s IH]; [done|]. cbn [Str.mentions Str.universal_newlines].
  intros [Hc Hs]%orb_false_iff. apply bool_decide_eq_false in Hc.
  rewrite decide_False by done. by rewrite IH.
Qed.

Lemma lines_append x rest :
  Str.mentions Str.LF x = false →
  Str.lines (x +:+ String Str.LF rest) = (x +:+ String Str.LF "") :: Str.lines rest.
Proof.
  induction x as [|c x IH].
  - intros _. rewrite !append_nil_l. cbn [Str.lines]. by rewrite decide_True.
  - cbn [Str.mentions]. intros [Hc Hx]%orb_false_iff.
    apply bool_decide_eq_false in Hc.
    rewrite !append_cons. cbn [Str.lines]. rewrite decide_False by done.
    by rewrite IH.
Qed.

Lemma rstrip_append_space x c :
  Str.is_space c = true → Str.rstrip (x +:+ String c "") = Str.rstrip x.
Proof.
  intros Hc. induction x as [|a x IH].
  - rewrite append_nil_l. cbn [Str.rstrip]. by rewrite Hc.
  - rewrite append_cons. cbn [Str.rstrip]. by rewrite IH.
Qed.

Lemma rstrip_append x t :
  Str.rstrip t = t → t ≠ "" → Str.rstrip (x +:+ t) = x +:+ t.
Proof.
  intros Ht Hne. induction x as [|a x IH]; [done|].
  rewrite append_cons. cbn [Str.rstrip]. rewrite IH.
  destruct (x +:+ t) eqn:E; [|done].
  destruct x; [by rewrite append_nil_l in E | by rewrite append_cons in E].
Qed.

Lemma split_bars_cons c c' r :
  Str.split_bars (String c (String c' r))
  = if decide (c = "|"%char ∧ c' = "|"%char) then "" :: Str.split_bars r
    else Str.cons_field c (Str.split_bars (String c' r)).
Proof. reflexivity. Qed.

Lemma has_bars_cons c c' r :
  Str.has_bars (String c (String c' r))
  = bool_decide (c = "|"%char ∧ c' = "|"%char) || Str.has_bars (String c' r).
Proof. reflexivity. Qed.

Lemma split_bars_none s : Str.has_bars s = false → Str.split_bars s = [s].
Proof.
  induction s as [|c s IH]; [done|].
  destruct s as [|c' s]; [done|]. rewrite has_bars_cons, split_bars_cons.
  intros [Hc Hs]%orb_false_iff. apply bool_decide_eq_false in Hc.
  rewrite decide_False by done. by rewrite IH.
Qed.

Lemma split_bars_append a b :
  Str.has_bars (a +:+ "|") = false →
  Str.split_bars (a +:+ "||" +:+ b) = a :: Str.split_bars b.
Proof.
  change ("||" +:+ b) with (String "|" (String "|" b)).
  change ("|" : string) with (String "|" "").
  induction a as [|c a IH].
  - intros _. rewrite append_nil_l, split_bars_cons. by rewrite decide_True.
  - rewrite !append_cons. destruct a as [|c' a].
    + rewrite !append_nil_l in *. rewrite has_bars_cons, split_bars_cons.
      intros [Hc _]%orb_false_iff. apply bool_decide_eq_false in Hc.
      rewrite decide_False by done. by rewrite IH.
    + rewrite !append_cons in *. rewrite has_bars_cons, split_bars_cons.
      intros [Hc Ha]%orb_false_iff. apply bool_decide_eq_false in Hc.
      rewrite decide_False by done. by rewrite IH.
Qed.

Lemma render_app p q : Path.render (p ++ q) = Path.render p +:+ Path.render q.
Proof.
  induction p as [|c p IH]; [done|]. cbn [app Path.render].
  by rewrite IH, !append_assoc.
Qed.

Lemma to_string_render p : p ≠ [] → Path.to_string p = Path.render p.
Proof. by destruct p. Qed.

Lemma to_string_starts p : ∃ t, Path.to_string p = String "/" t.
Proof. destruct p; by eexists. Qed.

Lemma split_slash_nonempty s : Str.split_slash s ≠ [].
Proof.
  destruct s as [|c s]; [done|]. cbn [Str.split_slash].
  case_decide; [done|]. by destruct (Str.split_slash s).
Qed.

Lemma split_slash_append x t :
  Str.mentions "/" x = false →
  Str.split_slash (x +:+ t)
  = (x +:+ hd "" (Str.split_slash t)) :: tl (Str.split_slash t).
Proof.
  induction x as [|c x IH].
  - intros _. rewrite !append_nil_l.
    pose proof (split_slash_nonempty t). by destruct (Str.split_slash t).
  - cbn [Str.mentions]. intros [Hc Hx]%orb_false_iff.
    apply bool_decide_eq_false in Hc.
    rewrite !append_cons. cbn [Str.split_slash].
    rewrite decide_False by done. by rewrite IH.
Qed.

Lemma split_slash_render p :
  Forall (λ n, Str.mentions "/" n = false) p →
  Str.split_slash (Path.render p) = match p with [] => [""] | _ => "" :: p end.
Proof.
  induction 1 as [|n p Hn Hp IH]; [done|]. cbn [Path.render].
  change ("/" +:+ n +:+ Path.render p) with (String "/" (n +:+ Path.render p)).
  cbn [Str.split_slash]. rewrite decide_True by done.
  rewrite split_slash_append, IH by done.
  destruct p; cbn [hd tl]; by rewrite append_nil_r.
Qed.

Lemma parse_path_to_string p :
  Forall valid_name p → parse_path (Path.to_string p) = p.
Proof.
  intros Hp. destruct (decide (p = [])) as [->|Hne]; [done|].
  unfold parse_path. rewrite to_string_render by done.
  rewrite split_slash_render
    by (eapply Forall_impl; [done|]; by intros n (_ & _ & ?)).
  destruct p as [|n p]; [done|].
  rewrite filter_cons_False by (by intros [? _]).
  clear Hne. induction Hp as [|m q (Hm1 & Hm2 & _) _ IH]; [done|].
  rewrite filter_cons_True by done. by rewrite IH.
Qed.

Lemma parse_line_record s d :
  record_ok (s, d) → parse_line (record_line s d) = Some (s, d).
Proof.
  intros (Hs & Hd & _ & _ & Ha & Hb & Hstrip). cbn [fst snd] in *.
  unfold parse_line, record_line, Str.strip.
  destruct (to_string_starts s) as [ta Eta].
  destruct (to_string_starts d) as [tb Etb].
  rewrite <- !append_assoc, rstrip_append_space by done.
  rewrite rstrip_append by (done || by rewrite Etb).
  rewrite append_assoc. rewrite Eta at 1. rewrite append_cons.
  cbn [Str.lstrip]. change (Str.is_space "/") with false. cbn match.
  rewrite <- append_cons, <- Eta.
  rewrite split_bars_append, split_bars_none by done.
  by rewrite !parse_path_to_string.
Qed.

Lemma lines_log_text records :
  Forall record_ok records →
  Str.lines (log_text records) = (λ sd, record_line sd.1 sd.2) <$> records.
Proof.
  induction 1 as [|[s d] records Hok _ IH]; [done|].
  cbn [log_text fmap list_fmap fst snd]. rewrite <- IH.
  destruct Hok as (_ & _ & Hlf & _). cbn [fst snd] in Hlf.
  rewrite mentions_append in Hlf. apply orb_false_iff in Hlf as [Hlfa Hlfb].
  unfold record_line.
  generalize (Path.to_string s) (Path.to_string d) Hlfa Hlfb. intros a b Ha Hb.
  trans (Str.lines ((a +:+ "||" +:+ b) +:+ String Str.LF (log_text records))).
  { f_equal. by rewrite !append_assoc. }
  rewrite lines_append by (by rewrite !mentions_append, Ha, Hb).
  f_equal. by rewrite !append_assoc.
Qed.

Lemma mentions_log_text c records :
  c ≠ "|"%char → c ≠ Str.LF →
  Forall (λ sd, Str.mentions c (Path.to_string sd.1 +:+ Path.to_string sd.2)
                = false) records →
  Str.mentions c (log_text records) = false.
Proof.
  intros Hbar Hlf. induction 1 as [|[s d] records Hok _ IH]; [done|].
  cbn [log_text fst snd] in *. unfold record_line.
  rewrite mentions_append in Hok. apply orb_false_iff in Hok as [Ha Hb].
  rewrite !mentions_append, Ha, Hb, IH. cbn [Str.mentions orb].
  by rewrite !bool_decide_eq_false_2.
Qed.

(** A log made of records that read back parses to these records. *)
Lemma parse_log_text records :
  Forall record_ok records → parse_log (log_text records) = Some records.
Proof.
  intros Hok. unfold parse_log.
  rewrite universal_newlines_id.
  2:{ apply mentions_log_text; [done..|].
      eapply Forall_impl; [done|]. by intros sd (_ & _ & _ & ? & _). }
  rewrite lines_log_text by done.
  induction Hok as [|[s d] records Hsd _ IH]; [done|].
  cbn [fmap list_fmap parse_lines fst snd].
  by rewrite parse_line_record, IH.
Qed.

(** ** Records under a loggable folder *)

Lemma has_bars_join x c t :
  c ≠ "|"%char →
  Str.has_bars (x +:+ String c t) = Str.has_bars x || Str.has_bars (String c t).
Proof.
  intros Hc. induction x as [|a x IH]; [done|].
  rewrite append_cons. destruct x as [|a' x].
  - rewrite append_nil_l, has_bars_cons.
    rewrite bool_decide_eq_false_2; [done | by intros [_ ?]].
  - rewrite append_cons in *. rewrite !has_bars_cons, IH. by rewrite orb_assoc.
Qed.

Lemma has_bars_slash t : Str.has_bars (String "/" t) = Str.has_bars t.
Proof.
  destruct t as [|c t]; [done|]. rewrite has_bars_cons.
  rewrite bool_decide_eq_false_2; [done | by intros [? _]].
Qed.

Lemma render_cons n p : Path.render (n :: p) = String "/" (n +:+ Path.render p).
Proof. reflexivity. Qed.

Lemma render_starts p : p ≠ [] → ∃ t, Path.render p = String "/" t.
Proof. destruct p; [done|]. intros _. rewrite render_cons. by eexists. Qed.

Lemma has_bars_render p :
  Forall (λ n, Str.has_bars n = false) p → Str.has_bars (Path.render p) = false.
Proof.
  induction 1 as [|n p Hn Hp IH]; [done|].
  rewrite render_cons, has_bars_slash.
  destruct p as [|m p]; [by rewrite append_nil_r|].
  destruct (render_starts (m :: p)) as [t Et]; [done|].
  rewrite Et, has_bars_join by done. by rewrite <- Et, Hn, IH.
Qed.

Lemma mentions_render c p :
  c ≠ "/"%char →
  Forall (λ n, Str.mentions c n = false) p →
  Str.mentions c (Path.render p) = false.
Proof.
  intros Hc. induction 1 as [|n p Hn Hp IH]; [done|].
  rewrite render_cons. cbn [Str.mentions].
  rewrite mentions_append, Hn, IH. by rewrite bool_decide_eq_false_2.
Qed.

(** A record between paths below a loggable folder reads back as soon as
    the record of the paths below does. *)
Lemma record_ok_prefix folder src dst :
  Forall loggable_name folder →
  src ≠ [] → dst ≠ [] →
  record_ok (src, dst) → record_ok (folder ++ src, folder ++ dst).
Proof.
  intros Hfolder Hsrc Hdst (Hs & Hd & Hlf & Hcr & Ha & Hb & Hstrip).
  cbn [fst snd] in *.
  assert (Forall valid_name folder) as Hvalid
    by (eapply Forall_impl; [exact Hfolder | by intros n (? & _)]).
  assert (∀ p, p ≠ [] → Path.to_string (folder ++ p)
                        = Path.render folder +:+ Path.to_string p) as Hto.
  { intros p Hp. rewrite !to_string_render, render_app; [done..|].
    by destruct folder, p. }
  destruct (render_starts src Hsrc) as [ts Ets].
  destruct (render_starts dst Hdst) as [td Etd].
  rewrite (to_string_render src) in * by done.
  rewrite (to_string_render dst) in * by done.
  unfold record_ok. cbn [fst snd].
  rewrite !Hto, !to_string_render by done.
  repeat split.
  - by apply Forall_app.
  - by apply Forall_app.
  - rewrite mentions_append in Hlf. apply orb_false_iff in Hlf as [Hx Hy].
    assert (Str.mentions Str.LF (Path.render folder) = false) as Hf.
    { apply mentions_render; [done|].
      eapply Forall_impl; [exact Hfolder | by intros n (_ & ? & _)]. }
    by rewrite !mentions_append, Hf, Hx, Hy.
  - rewrite mentions_append in Hcr. apply orb_false_iff in Hcr as [Hx Hy].
    assert (Str.mentions Str.CR (Path.render folder) = false) as Hf.
    { apply mentions_render; [done|].
      eapply Forall_impl; [exact Hfolder | by intros n (_ & _ & ? & _)]. }
    by rewrite !mentions_append, Hf, Hx, Hy.
  - rewrite append_assoc. rewrite Ets in Ha |- *. rewrite append_cons in Ha |- *.
    rewrite has_bars_join, Ha, has_bars_render; [done | | done].
    eapply Forall_impl; [exact Hfolder | by intros n (_ & _ & _ & ?)].
  - rewrite Etd in Hb |- *.
    rewrite has_bars_join, Hb, has_bars_render; [done | | done].
    eapply Forall_impl; [exact Hfolder | by intros n (_ & _ & _ & ?)].
  - apply rstrip_append; [done | by rewrite Etd].
Qed.

(** ** Undoing a run *)

Lemma undo_record_restore src dst c w :
  fs w !! dst = Some (File c) →
  fs w !! src = None →
  fs w !! Path.parent src = Some Dir →
  undo_record false src dst w
  = (Ok (),
     World (<[src := File c]> (delete dst (fs w))) (out w ++ [MsgUndid dst src])).
Proof.
  intros Hdst Hsrc Hparent. unfold undo_record.
  rewrite bind_run. unfold gets at 1, exists_. rewrite Hdst.
  rewrite bind_run. unfold gets at 1, exists_. rewrite Hsrc.
  rewrite bind_run. unfold ensure_dir, lift_fs at 1.
  rewrite mkdir_parents_existing by (by rewrite rev_involutive).
  rewrite bind_run. unfold lift_fs at 1. cbn [fs out].
  rewrite world_eta, (shutil_move_file _ _ _ c) by done.
  done.
Qed.

(** Undoing records that go from the children of a folder to its
    grandchildren, when every destination still holds its file and every
    source is free, puts every file back. *)
Lemma undo_loop_restores folder records : ∀ fsi outi,
  fsi !! folder = Some Dir →
  NoDup records.*1 → NoDup records.*2 →
  (∀ s d, (s, d) ∈ records →
     (∃ n, s = folder // n) ∧ (∃ b n, d = folder // b // n)
     ∧ fsi !! s = None ∧ ∃ c, fsi !! d = Some (File c)) →
  ∃ fsf,
    undo_loop false records (World fsi outi)
    = (Ok (), World fsf (outi ++ undid_messages records))
    ∧ restored fsi fsf records.
Proof.
  induction records as [|[s d] rest IH]; intros fsi outi Hroot Hsrcs Hdsts Hrec.
  { exists fsi. split; [by cbn; rewrite app_nil_r|].
    split; [intros s d Hin; by apply elem_of_nil in Hin | done]. }
  cbn [fmap list_fmap fst snd] in Hsrcs, Hdsts.
  apply NoDup_cons in Hsrcs as [Hs Hsrcs]. apply NoDup_cons in Hdsts as [Hd Hdsts].
  destruct (Hrec s d) as ([n Es] & (b & m & Ed) & Hfree & c & Hc); [by left|].
  assert (∀ s' d', (s', d') ∈ rest →
            (∃ n, s' = folder // n) ∧ (∃ b n, d' = folder // b // n)
            ∧ s' ≠ s ∧ d' ≠ d ∧ s' ≠ d ∧ d' ≠ s) as Hshape.
  { intros s' d' Hin.
    destruct (Hrec s' d') as ([n' Es'] & (b' & m' & Ed') & _); [by right|].
    repeat split; [by eexists | by eexists; eexists | ..].
    - intros ->. apply Hs. apply list_elem_of_fmap. by exists (s, d').
    - intros ->. apply Hd. apply list_elem_of_fmap. by exists (s', d).
    - rewrite Es', Ed. apply not_eq_sym, grandchild_ne_child.
    - rewrite Es, Ed'. apply grandchild_ne_child. }
  rewrite undo_loop_cons, (undo_record_restore _ _ c);
    [| done | done | by rewrite Es, parent_child].
  cbn [fs out].
  destruct (IH (<[s := File c]> (delete d fsi)) (outi ++ [MsgUndid d s]))
    as (fsf & Hrun & Hpairs & Hframe); [| done | done | |].
  { rewrite lookup_insert_ne by (rewrite Es; apply child_ne_self).
    by rewrite lookup_delete_ne by (rewrite Ed; apply grandchild_ne_self). }
  { intros s' d' Hin.
    destruct (Hshape s' d' Hin) as (? & ? & ? & ? & ? & ?).
    destruct (Hrec s' d') as (_ & _ & Hfree' & c' & Hc'); [by right|].
    repeat split; [done.. | |].
    - rewrite lookup_insert_ne by done. rewrite lookup_delete. by case_decide.
    - exists c'. rewrite lookup_insert_ne by done.
      by rewrite lookup_delete_ne by done. }
  assert ((s ∉ rest.*2) ∧ (d ∉ rest.*1)) as [Hsd Hds].
  { split; intros ([s' d'] & Heq & Hin)%list_elem_of_fmap; simpl in Heq; subst;
      by destruct (Hshape _ _ Hin) as (_ & _ & _ & _ & ? & ?). }
  exists fsf. split; [|split].
  - rewrite Hrun. cbn [undid_messages fmap list_fmap fst snd].
    by rewrite <- app_assoc.
  - intros s' d' [[= -> ->]|Hin]%elem_of_cons.
    + rewrite !Hframe by done. rewrite lookup_insert_eq, Hc.
      split; [done|].
      rewrite lookup_insert_ne
        by (rewrite Es, Ed; apply not_eq_sym, grandchild_ne_child).
      apply lookup_delete_eq.
    + destruct (Hshape s' d' Hin) as (_ & _ & ? & ? & ? & ?).
      destruct (Hpairs s' d' Hin) as [-> ->]. split; [|done].
      rewrite lookup_insert_ne by done. by rewrite lookup_delete_ne by done.
  - intros q Hqs Hqd. cbn [fmap list_fmap fst snd] in Hqs, Hqd.
    apply not_elem_of_cons in Hqs as [? ?]. apply not_elem_of_cons in Hqd as [? ?].
    rewrite Hframe by done.
    rewrite lookup_insert_ne by done. by rewrite lookup_delete_ne by done.
Qed.

(** ** The round trip *)

Lemma plan_Permutation fs folder incl l k :
  l ≡ₚ k → plan fs folder incl l ≡ₚ plan fs folder incl k.
Proof.
  induction 1 as [|x l k _ IH|x y l|l k m _ IH1 _ IH2].
  - done.
  - rewrite !plan_cons. destruct (skipped fs folder incl x); [done | by constructor].
  - rewrite !plan_cons.
    destruct (skipped fs folder incl y), (skipped fs folder incl x); try done.
    apply perm_swap.
  - by etrans.
Qed.

Lemma child_ne_nil p n : p // n ≠ [].
Proof. by destruct p. Qed.

Lemma elem_of_children fs folder q :
  q ∈ children fs folder ↔ ∃ n, q = folder // n ∧ is_Some (fs !! q).
Proof.
  unfold children. rewrite elem_of_filter, elem_of_dom. split.
  - intros [[Hne Hp] Hq]. exists (Path.name q). split; [|done].
    rewrite <- Hp. by apply child_parent_name.
  - intros (n & -> & Hq).
    repeat split; [apply child_ne_nil | apply parent_child | done].
Qed.

Lemma not_skipped_file fs folder n c :
  fs !! (folder // n) = Some (File c) →
  Str.startswith LOG_PREFIX n = false →
  skipped fs folder false (folder // n) = false.
Proof.
  intros Hn Hprefix. unfold skipped, is_dir.
  rewrite Hn, name_child, Hprefix, parent_child. cbn [orb negb andb].
  apply bool_decide_eq_false. by intros H.
Qed.

Lemma log_name_ne now n : Str.startswith LOG_PREFIX n = false → log_name now ≠ n.
Proof. intros Hn <-. by rewrite log_name_prefix in Hn. Qed.

Section round_trip.
Context (fs0 : filesystem) (folder : path) (now : datetime).
Context (ca cb cc : string).

Local Abbreviation lg := (folder // log_name now).
Local Abbreviation pa := (folder // "a.jpg").
Local Abbreviation pb := (folder // "b.pdf").
Local Abbreviation pc := (folder // "c").
Local Abbreviation da := (folder // "images" // "a.jpg").
Local Abbreviation db := (folder // "docs" // "b.pdf").
Local Abbreviation dc := (folder // "no_extension" // "c").

Hypothesis Hloggable : Forall loggable_name folder.
Hypothesis Hwf : well_formed fs0.
Hypothesis Hroot : fs0 !! folder = Some Dir.
Hypothesis Hchildren : children fs0 folder = {[pa; pb; pc]}.
Hypothesis Ha : fs0 !! pa = Some (File ca).
Hypothesis Hb : fs0 !! pb = Some (File cb).
Hypothesis Hc : fs0 !! pc = Some (File cc).

Lemma child_cases n :
  is_Some (fs0 !! (folder // n)) → n = "a.jpg" ∨ n = "b.pdf" ∨ n = "c".
Proof.
  intros Hn.
  assert (folder // n ∈ children fs0 folder) as Hin
    by (apply elem_of_children; eauto).
  rewrite Hchildren in Hin.
  apply elem_of_union in Hin as [[Hin|Hin]%elem_of_union|Hin];
    apply elem_of_singleton, child_inj in Hin as [_ ->]; auto.
Qed.

Lemma other_child_free n :
  n ≠ "a.jpg" → n ≠ "b.pdf" → n ≠ "c" → fs0 !! (folder // n) = None.
Proof.
  intros H1 H2 H3. destruct (fs0 !! (folder // n)) eqn:Hn; [|done].
  destruct (child_cases n) as [?|[?|?]]; by rewrite ?Hn.
Qed.

Lemma grandchild_free n m : fs0 !! (folder // n // m) = None.
Proof.
  destruct (fs0 !! (folder // n // m)) eqn:Hnm; [|done].
  apply (map_Forall_lookup_1 _ _ _ _ Hwf) in Hnm as [Hnil|Hdir].
  - by apply child_ne_nil in Hnil.
  - rewrite parent_child in Hdir. apply is_dir_lookup in Hdir.
    destruct (child_cases n) as [-> | [-> | ->]]; [by rewrite Hdir | congruence..].
Qed.

Lemma log_free : fs0 !! lg = None.
Proof. apply other_child_free; by apply log_name_ne. Qed.

Lemma the_plan :
  plan fs0 folder false [pa; pb; pc; lg] = [(pa, da); (pb, db); (pc, dc)].
Proof.
  rewrite !plan_cons, log_is_skipped, plan_nil.
  rewrite (not_skipped_file _ _ _ _ Ha), (not_skipped_file _ _ _ _ Hb),
    (not_skipped_file _ _ _ _ Hc) by done.
  unfold planned_dst. rewrite !name_child.
  change (pick_bucket (Path.suffix "a.jpg")) with "images".
  change (pick_bucket (Path.suffix "b.pdf")) with "docs".
  change (pick_bucket (Path.suffix "c")) with "no_extension".
  by rewrite !safe_destination_free by apply not_exists_lookup, grandchild_free.
Qed.

Lemma the_records_ok :
  Forall record_ok [(pa, da); (pb, db); (pc, dc)].
Proof.
  unfold Path.child. rewrite <- !app_assoc. cbn [app].
  repeat apply Forall_cons_2; [..|apply Forall_nil_2];
    (apply record_ok_prefix; [done | done | done |]);
    unfold record_ok; cbn [fst snd];
    (repeat split; try (by vm_compute));
    repeat apply Forall_cons_2; try apply Forall_nil_2; by repeat split.
Qed.

Lemma the_names_distinct : NoDup [pa; pb; pc; lg].
Proof.
  apply (NoDup_fmap_2_strong (Path.child folder)
           ["a.jpg"; "b.pdf"; "c"; log_name now]);
    [intros n m _ _ H; by apply child_inj in H as [_ ?]|].
  assert (["a.jpg"; "b.pdf"; "c"; log_name now]
          ≡ₚ log_name now :: ["a.jpg"; "b.pdf"; "c"]) as ->
    by (symmetry; apply (Permutation_cons_append ["a.jpg"; "b.pdf"; "c"])).
  apply NoDup_cons. split; [|compute_done].
  intros Hin.
  repeat (apply elem_of_cons in Hin as [Hin|Hin];
          [by apply log_name_ne in Hin|]).
  by apply elem_of_nil in Hin.
Qed.

Lemma the_destinations_distinct : NoDup [da; db; dc].
Proof.
  unfold Path.child. rewrite <- !app_assoc. cbn [app].
  apply (NoDup_fmap_2 (app folder)
           [["images"; "a.jpg"]; ["docs"; "b.pdf"]; ["no_extension"; "c"]]).
  compute_done.
Qed.

Lemma round_trip yielded :
  yielded ≡ₚ [pa; pb; pc; lg] →
  ∃ fs1 out1 fs2 out2,
    organize now yielded folder false false (World fs0 [])
    = (Ok (), World fs1 out1)
    ∧ undo lg false (World fs1 out1) = (Ok (), World fs2 out2)
    ∧ fs2 !! pa = Some (File ca) ∧ fs2 !! pb = Some (File cb)
    ∧ fs2 !! pc = Some (File cc)
    ∧ is_file fs2 lg = true
    ∧ fs2 !! (folder // "images") = Some Dir
    ∧ fs2 !! (folder // "docs") = Some Dir
    ∧ fs2 !! (folder // "no_extension") = Some Dir
    ∧ ∀ q, q ∉ [lg; folder // "images"; folder // "docs";
                folder // "no_extension"] →
           fs2 !! q = fs0 !! q.
Proof.
  intros Hperm.
  set (pl := plan fs0 folder false yielded).
  assert (pl ≡ₚ [(pa, da); (pb, db); (pc, dc)]) as Hpl.
  { unfold pl. etrans; [by apply plan_Permutation|]. by rewrite the_plan. }
  assert (∀ s d, (s, d) ∈ pl →
            (s, d) = (pa, da) ∨ (s, d) = (pb, db) ∨ (s, d) = (pc, dc)) as Hcases.
  { intros s d Hin. rewrite Hpl in Hin.
    repeat (apply elem_of_cons in Hin as [Hin|Hin]; [by auto|]).
    by apply elem_of_nil in Hin. }
  assert ((pa, da) ∈ pl ∧ (pb, db) ∈ pl ∧ (pc, dc) ∈ pl) as (Hina & Hinb & Hinc).
  { rewrite !Hpl. repeat split; repeat constructor. }
  assert (pl.*1 ≡ₚ [pa; pb; pc]) as Hsrcs by (by rewrite Hpl).
  assert (pl.*2 ≡ₚ [da; db; dc]) as Hdsts by (by rewrite Hpl).
  assert (Path.parent <$> pl.*2
          ≡ₚ [folder // "images"; folder // "docs"; folder // "no_extension"])
    as Hparents by (rewrite Hdsts; cbn; by rewrite !parent_child).
  destruct (organize_real fs0 folder now yielded [])
    as (fs1 & Hrun1 & Hlog1 & Hpairs1 & Hframe1).
  { done. }
  { by rewrite log_free. }
  { rewrite Hperm. apply the_names_distinct. }
  { intros p Hin Hp. rewrite Hperm in Hin.
    repeat (apply elem_of_cons in Hin as [->|Hin]; [by eauto|]).
    by apply elem_of_nil in Hin. }
  { fold pl. rewrite Hdsts. apply the_destinations_distinct. }
  { intros s d c Hin.
    destruct (Hcases s d Hin) as [[= -> ->]|[[= -> ->]|[= -> ->]]];
      by rewrite parent_child, other_child_free. }
  fold pl in Hrun1, Hlog1, Hpairs1, Hframe1.
  rewrite append_nil_l in Hlog1.
  assert (fs1 !! folder = Some Dir) as Hroot1.
  { rewrite Hframe1.
    - by rewrite lookup_insert_ne by apply child_ne_self.
    - apply not_eq_sym, child_ne_self.
    - rewrite Hsrcs, !not_elem_of_cons.
      repeat split; [apply not_eq_sym, child_ne_self.. | apply not_elem_of_nil].
    - rewrite Hdsts, !not_elem_of_cons.
      repeat split; [apply not_eq_sym, grandchild_ne_self.. | apply not_elem_of_nil].
    - rewrite Hparents, !not_elem_of_cons.
      repeat split; [apply not_eq_sym, child_ne_self.. | apply not_elem_of_nil]. }
  assert (Forall record_ok pl) as Hok by (rewrite Hpl; apply the_records_ok).
  destruct (undo_loop_restores folder (rev pl) fs1
              ([] ++ moved_messages pl
               ++ [MsgLogSaved lg; MsgProcessed (length pl)]))
    as (fs2 & Hrun2 & Hpairs2 & Hframe2).
  { done. }
  { rewrite <- (Permutation_rev pl), Hsrcs.
    by destruct (proj1 (NoDup_app [pa; pb; pc] [lg]) the_names_distinct)
      as [? _]. }
  { rewrite <- (Permutation_rev pl), Hdsts. apply the_destinations_distinct. }
  { intros s d Hin. rewrite <- (Permutation_rev pl) in Hin.
    destruct (Hpairs1 s d Hin) as (Hs & Hd & _).
    destruct (Hcases s d Hin) as [[= -> ->]|[[= -> ->]|[= -> ->]]];
      (repeat split; [by eexists | by eexists; eexists | done | rewrite Hd; by eexists]). }
  exists fs1, ([] ++ moved_messages pl
               ++ [MsgLogSaved lg; MsgProcessed (length pl)]), fs2.
  eexists. split; [exact Hrun1|]. split.
  { rewrite (undo_parsed _ _ (log_text pl) pl); [exact Hrun2 | done |].
    by apply parse_log_text. }
  assert (∀ s d, (s, d) ∈ pl → fs2 !! s = fs0 !! s ∧ fs2 !! d = None)
    as Hback.
  { intros s d Hin.
    destruct (Hpairs2 s d) as [-> ->]; [by rewrite <- (Permutation_rev pl)|].
    by destruct (Hpairs1 s d Hin) as (_ & -> & _). }
  assert (∀ q, q ∉ [pa; pb; pc] → q ∉ [da; db; dc] → fs2 !! q = fs1 !! q)
    as Hkeep.
  { intros q Hq1 Hq2.
    apply Hframe2; by rewrite <- (Permutation_rev pl), ?Hsrcs, ?Hdsts. }
  assert (∀ n, n ≠ "a.jpg" → n ≠ "b.pdf" → n ≠ "c" →
            fs2 !! (folder // n) = fs1 !! (folder // n)) as Hkeep1.
  { intros n H1 H2 H3. apply Hkeep.
    - rewrite !not_elem_of_cons.
      repeat split; [by intros [_ ?]%child_inj.. | apply not_elem_of_nil].
    - rewrite !not_elem_of_cons.
      repeat split; [apply not_eq_sym, grandchild_ne_child.. | apply not_elem_of_nil]. }
  destruct (Hpairs1 _ _ Hina) as (_ & _ & Hda).
  destruct (Hpairs1 _ _ Hinb) as (_ & _ & Hdb).
  destruct (Hpairs1 _ _ Hinc) as (_ & _ & Hdc).
  rewrite parent_child in Hda, Hdb, Hdc.
  repeat split.
  - destruct (Hback _ _ Hina) as [-> _]. done.
  - destruct (Hback _ _ Hinb) as [-> _]. done.
  - destruct (Hback _ _ Hinc) as [-> _]. done.
  - unfold is_file. rewrite Hkeep1, Hlog1; [done | by apply log_name_ne..].
  - by rewrite Hkeep1.
  - by rewrite Hkeep1.
  - by rewrite Hkeep1.
  - intros q Hq. rewrite !not_elem_of_cons in Hq.
    destruct Hq as (Hq1 & Hq2 & Hq3 & Hq4 & _).
    destruct (decide (q ∈ pl.*1)) as [Hin|Hnin1].
    { apply list_elem_of_fmap in Hin as ([s d] & -> & Hin). cbn [fst].
      by destruct (Hback _ _ Hin) as [-> _]. }
    destruct (decide (q ∈ pl.*2)) as [Hin|Hnin2].
    { apply list_elem_of_fmap in Hin as ([s d] & -> & Hin). cbn [snd].
      destruct (Hback _ _ Hin) as [_ ->].
      destruct (Hcases s d Hin) as [[= -> ->]|[[= -> ->]|[= -> ->]]];
        by rewrite grandchild_free. }
    rewrite Hframe2 by (by rewrite <- (Permutation_rev pl)).
    rewrite Hframe1; [by rewrite lookup_insert_ne | done | done | done |].
    rewrite Hparents, !not_elem_of_cons.
    repeat split; [done.. | apply not_elem_of_nil].
Qed.
End round_trip.



(** Why the round trip needs a root whose path has no ["||"]: with the
    delimiter in the folder's name, the line of the log splits into more
    than two fields and undo stops with a [ValueError], before any move. *)
Example undo_unreadable_log :
  let home := ["a||b"] in
  let fs0 : filesystem :=
    list_to_map [([], Dir); (home, Dir); (home // "c", File "C")] in
  let w1 := (organize Scenario.now [home // "c"] home false false
               (World fs0 [])).2 in
  fs w1 !! (home // "no_extension" // "c") = Some (File "C")
  ∧ undo (home // log_name Scenario.now) false w1 = (Raise ValueError, w1).
Proof. vm_compute. by split. Qed.




(** * Further properties *)

(** ** Undo: previews, missing files, unreadable logs *)

Lemma undo_record_dry src dst w :
  ∃ m, undo_record true src dst w = (Ok (), World (fs w) (out w ++ [m])).
Proof.
  unfold undo_record. rewrite bind_run. unfold gets at 1.
  destruct (exists_ (fs w) dst); [|by eexists].
  rewrite bind_run. unfold gets at 1. by eexists.
Qed.

Lemma undo_loop_dry records w :
  ∃ msgs, undo_loop true records w = (Ok (), World (fs w) (out w ++ msgs)).
Proof.
  revert w. induction records as [|[src dst] rest IH]; intros w.
  - exists []. cbn. by rewrite app_nil_r, world_eta.
  - rewrite undo_loop_cons. destruct (undo_record_dry src dst w) as [m ->].
    destruct (IH (World (fs w) (out w ++ [m]))) as [msgs ->]. cbn [fs out].
    exists (m :: msgs). by rewrite <- app_assoc.
Qed.

(** X1: a dry-run undo never changes the file system, whatever the log
    holds and however the run ends. *)
Theorem undo_dry_run_unchanged (log_file : path) (w : world) :
  fs (undo log_file true w).2 = fs w.
Proof.
  unfold undo. rewrite bind_run. unfold gets at 1.
  destruct (exists_ (fs w) log_file); [|done]. cbn [negb].
  rewrite bind_run. unfold read_text.
  destruct (fs w !! log_file) as [[text|]|]; [|done..].
  destruct (parse_log text) as [moves|]; [|done].
  by destruct (undo_loop_dry (rev moves) w) as [msgs ->].
Qed.

Lemma undo_loop_all_missing dry_run records w :
  Forall (λ sd, exists_ (fs w) sd.2 = false) records →
  undo_loop dry_run records w
  = (Ok (), World (fs w) (out w ++ (MsgMissing ∘ snd <$> records))).
Proof.
  revert w. induction records as [|[src dst] rest IH]; intros w Hall.
  - cbn. by rewrite app_nil_r, world_eta.
  - apply Forall_cons in Hall as [Hdst Hall]. cbn [snd] in Hdst.
    rewrite undo_loop_cons, undo_record_missing by done.
    rewrite IH by done. cbn [fs out fmap list_fmap compose snd].
    by rewrite <- app_assoc.
Qed.

(** X2: when none of the logged destinations exists any more, undo returns
    normally, changes nothing on disk, and prints one missing notice per
    record, the last record of the log first. *)
Theorem undo_all_missing (log_file : path) (dry_run : bool) (w : world)
    (text : string) (moves : list (path * path)) :
  fs w !! log_file = Some (File text) →
  parse_log text = Some moves →
  Forall (λ sd, exists_ (fs w) sd.2 = false) moves →
  undo log_file dry_run w
  = (Ok (), World (fs w) (out w ++ (MsgMissing ∘ snd <$> rev moves))).
Proof.
  intros Hlog Hparse Hall. rewrite (undo_parsed _ _ _ _ _ Hlog Hparse).
  apply undo_loop_all_missing. by apply Forall_rev.
Qed.

Lemma undo_all_missing_witness :
  undo Scenario.log false (World Scenario.all_missing [])
  = (Ok (),
     World Scenario.all_missing
       [ MsgMissing (Scenario.home // "images" // "a.jpg");
         MsgMissing (Scenario.home // "docs" // "b.pdf") ]).
Proof.
  apply (undo_all_missing Scenario.log false (World Scenario.all_missing [])
           (log_text
              [ (Scenario.home // "b.pdf", Scenario.home // "docs" // "b.pdf");
                (Scenario.home // "a.jpg",
                 Scenario.home // "images" // "a.jpg") ])
           [ (Scenario.home // "b.pdf", Scenario.home // "docs" // "b.pdf");
             (Scenario.home // "a.jpg", Scenario.home // "images" // "a.jpg") ]);
    [vm_compute; reflexivity | vm_compute; reflexivity | compute_done].
Defined.

Lemma parse_lines_bad ls l :
  l ∈ ls → parse_line l = None → parse_lines ls = None.
Proof.
  intros Hin Hl. induction ls as [|l' ls IH]; [by apply elem_of_nil in Hin|].
  cbn [parse_lines]. apply elem_of_cons in Hin as [<-|Hin]; [by rewrite Hl|].
  destruct (parse_line l'); [|done]. by rewrite IH.
Qed.

Lemma parse_line_fields l :
  length (Str.split_bars (Str.strip l)) ≠ 2 → parse_line l = None.
Proof.
  unfold parse_line. by destruct (Str.split_bars _) as [|? [|? [|? ?]]].
Qed.

(** X3: a log with a line that does not split into exactly two fields at
    the delimiter (a blank line, a line without ["||"], a line with it
    twice) makes undo stop with a [ValueError] before anything is moved or
    printed, also when every other line is a good record. *)
Theorem undo_malformed_log (log_file : path) (dry_run : bool) (w : world)
    (text l : string) :
  fs w !! log_file = Some (File text) →
  l ∈ Str.lines (Str.universal_newlines text) →
  length (Str.split_bars (Str.strip l)) ≠ 2 →
  undo log_file dry_run w = (Raise ValueError, w).
Proof.
  intros Hlog Hin Hfields. unfold undo. rewrite bind_run.
  unfold gets at 1, exists_. rewrite Hlog. cbn [negb].
  rewrite bind_run. unfold read_text. rewrite Hlog.
  unfold parse_log.
  by rewrite (parse_lines_bad _ l Hin (parse_line_fields l Hfields)).
Qed.

Lemma undo_malformed_log_witness :
  undo Scenario.log false (World Scenario.blank_line [])
  = (Raise ValueError, World Scenario.blank_line []).
Proof.
  apply (undo_malformed_log Scenario.log false (World Scenario.blank_line [])
           (record_line (Scenario.home // "a.jpg")
              (Scenario.home // "images" // "a.jpg")
            +:+ String Str.LF "")
           (String Str.LF ""));
    [vm_compute; reflexivity | compute_done | compute_done].
Defined.

(** ** The log: what a run writes, undo reads *)



(** ** Undo: one record restored *)

(** X5: undoing one record whose destination holds a file while the
    original source is free (and its folder is there) puts the file back
    at the original source, removes it from the destination, prints the
    notice, and leaves every other entry as it was. *)
Theorem undo_restores_free_source (src dst : path) (c : string) (w : world) :
  fs w !! dst = Some (File c) →
  fs w !! src = None →
  fs w !! Path.parent src = Some Dir →
  ∃ fs',
    undo_record false src dst w
    = (Ok (), World fs' (out w ++ [MsgUndid dst src]))
    ∧ fs' !! src = Some (File c)
    ∧ fs' !! dst = None
    ∧ ∀ q, q ≠ src → q ≠ dst → fs' !! q = fs w !! q.
Proof.
  intros Hdst Hsrc Hparent.
  exists (<[src := File c]> (delete dst (fs w))).
  assert (src ≠ dst) by (intros ->; congruence).
  split; [by apply undo_record_restore|]. split; [apply lookup_insert_eq|].
  split.
  - rewrite lookup_insert_ne by done. apply lookup_delete_eq.
  - intros q Hq1 Hq2. rewrite lookup_insert_ne by done.
    by rewrite lookup_delete_ne.
Qed.

Lemma undo_restores_free_source_witness :
  ∃ fs',
    undo_record false (Scenario.home // "a.jpg")
      (Scenario.home // "images" // "a.jpg") (World Scenario.one_missing [])
    = (Ok (),
       World fs' [MsgUndid (Scenario.home // "images" // "a.jpg")
                           (Scenario.home // "a.jpg")])
    ∧ fs' !! (Scenario.home // "a.jpg") = Some (File "A").
Proof.
  destruct (undo_restores_free_source (Scenario.home // "a.jpg")
              (Scenario.home // "images" // "a.jpg") "A"
              (World Scenario.one_missing []))
    as (fs' & H1 & H2 & _);
    [vm_compute; reflexivity | vm_compute; reflexivity
    | vm_compute; reflexivity |].
  exists fs'. split; [exact H1 | exact H2].
Defined.

(** X6: undoing one record whose original source is occupied never writes
    over the occupant: the file goes to the path the collision resolver
    gives in the source's folder, a path that did not exist, and every
    entry other than that path and the moved destination stays as it
    was. *)
Theorem undo_never_overwrites (src dst : path) (c : string) (w : world) :
  let target := safe_destination (fs w) (Path.parent src) (Path.name dst) in
  fs w !! dst = Some (File c) →
  exists_ (fs w) src = true →
  fs w !! Path.parent src = Some Dir →
  ∃ fs',
    undo_record false src dst w
    = (Ok (), World fs' (out w ++ [MsgUndid dst target]))
    ∧ fs w !! target = None
    ∧ fs' !! target = Some (File c)
    ∧ fs' !! dst = None
    ∧ ∀ q, q ≠ target → q ≠ dst → fs' !! q = fs w !! q.
Proof.
  intros target Hdst Hsrc Hparent.
  assert (fs w !! target = None) as Hfree
    by apply not_exists_lookup, safe_destination_fresh.
  destruct (safe_destination_child (fs w) (Path.parent src) (Path.name dst))
    as [n Hn]. fold target in Hn.
  assert (target ≠ dst) by (intros Heq; rewrite Heq in Hfree; congruence).
  exists (<[target := File c]> (delete dst (fs w))).
  split; [|split; [done|split; [apply lookup_insert_eq|split]]].
  - unfold undo_record.
    rewrite bind_run. unfold gets at 1, exists_ at 1. rewrite Hdst.
    rewrite bind_run. unfold gets at 1. rewrite Hsrc. fold target.
    rewrite bind_run. unfold ensure_dir, lift_fs at 1.
    rewrite Hn, parent_child.
    rewrite mkdir_parents_existing by (by rewrite rev_involutive).
    rewrite bind_run. unfold lift_fs at 1. cbn [fs out].
    rewrite world_eta, <- Hn, (shutil_move_file _ _ _ c);
      [done | done | done | by rewrite Hn, parent_child].
  - rewrite lookup_insert_ne by done. apply lookup_delete_eq.
  - intros q Hq1 Hq2. rewrite lookup_insert_ne by done.
    by rewrite lookup_delete_ne.
Qed.

Lemma undo_never_overwrites_witness :
  ∃ fs',
    undo_record false (Scenario.home // "a.jpg")
      (Scenario.home // "images" // "a (3).jpg") (World Scenario.reoccupied [])
    = (Ok (),
       World fs' [MsgUndid (Scenario.home // "images" // "a (3).jpg")
                    (safe_destination Scenario.reoccupied
                       (Path.parent (Scenario.home // "a.jpg"))
                       (Path.name (Scenario.home // "images" // "a (3).jpg")))])
    ∧ fs' !! (Scenario.home // "a.jpg") = Some (File "new").
Proof.
  destruct (undo_never_overwrites (Scenario.home // "a.jpg")
              (Scenario.home // "images" // "a (3).jpg") "moved"
              (World Scenario.reoccupied []))
    as (fs' & H1 & _ & _ & _ & H5);
    [vm_compute; reflexivity | vm_compute; reflexivity
    | vm_compute; reflexivity |].
  exists fs'. split; [exact H1|].
  rewrite H5; [vm_compute; reflexivity | by vm_compute | by vm_compute].
Defined.

(** ** Making directories *)

Lemma mkdir_parents_cons n rev_parent fs :
  mkdir_parents (n :: rev_parent) fs
  = match fs !! (rev rev_parent // n) with
    | Some Dir => inr fs
    | Some (File _) => inl FileExistsError
    | None =>
        match fs !! rev rev_parent with
        | Some Dir => inr (<[rev rev_parent // n := Dir]> fs)
        | Some (File _) => inl NotADirectoryError
        | None =>
            match mkdir_parents rev_parent fs with
            | inl e => inl e
            | inr fs' => inr (<[rev rev_parent // n := Dir]> fs')
            end
        end
    end.
Proof. reflexivity. Qed.

Lemma mkdir_parents_keeps rev_path fs fs' q n :
  mkdir_parents rev_path fs = inr fs' →
  fs !! q = Some n → fs' !! q = Some n.
Proof.
  revert fs'. induction rev_path as [|m rev_parent IH]; intros fs' Hrun Hq.
  - cbn in Hrun. destruct (fs !! []) as [[]|]; by simplify_eq.
  - rewrite mkdir_parents_cons in Hrun.
    destruct (fs !! (rev rev_parent // m)) as [[]|] eqn:Hp; [done | by simplify_eq |].
    assert (q ≠ rev rev_parent // m) by (intros ->; congruence).
    destruct (fs !! rev rev_parent) as [[]|]; [done | | ].
    + simplify_eq. by rewrite lookup_insert_ne.
    + destruct (mkdir_parents rev_parent fs) as [|fs'']; [done|].
      simplify_eq. rewrite lookup_insert_ne by done. by apply IH.
Qed.

Lemma mkdir_parents_new rev_path fs fs' q :
  mkdir_parents rev_path fs = inr fs' →
  fs !! q = None → is_Some (fs' !! q) →
  fs' !! q = Some Dir ∧ ∃ r, rev rev_path = q ++ r.
Proof.
  revert fs'. induction rev_path as [|m rev_parent IH]; intros fs' Hrun Hq Hq'.
  - cbn in Hrun. destruct (fs !! []) as [[]|]; simplify_eq.
    rewrite Hq in Hq'. by destruct Hq'.
  - rewrite mkdir_parents_cons in Hrun. cbn [rev].
    destruct (fs !! (rev rev_parent // m)) as [[]|] eqn:Hp; [done | |].
    { simplify_eq. rewrite Hq in Hq'. by destruct Hq'. }
    destruct (decide (q = rev rev_parent // m)) as [->|Hne].
    { split; [|by exists []; rewrite app_nil_r].
      destruct (fs !! rev rev_parent) as [[]|]; [done | |].
      - simplify_eq. apply lookup_insert_eq.
      - destruct (mkdir_parents rev_parent fs); [done|].
        simplify_eq. apply lookup_insert_eq. }
    destruct (fs !! rev rev_parent) as [[]|]; [done | |].
    + simplify_eq. rewrite lookup_insert_ne in Hq' by done.
      rewrite Hq in Hq'. by destruct Hq'.
    + destruct (mkdir_parents rev_parent fs) as [|fs''] eqn:Hrec; [done|].
      simplify_eq. rewrite lookup_insert_ne in Hq' |- * by done.
      destruct (IH fs'' eq_refl Hq Hq') as [Hdir [r Hr]].
      split; [done|]. exists (r ++ [m]). by rewrite Hr, app_assoc.
Qed.

Lemma mkdir_parents_made rev_path fs fs' :
  mkdir_parents rev_path fs = inr fs' → fs' !! rev rev_path = Some Dir.
Proof.
  destruct rev_path as [|m rev_parent]; intros Hrun.
  - cbn in Hrun |- *. destruct (fs !! []) as [[]|] eqn:H; by simplify_eq.
  - rewrite mkdir_parents_cons in Hrun. cbn [rev].
    change (rev rev_parent ++ [m]) with (rev rev_parent // m).
    destruct (fs !! (rev rev_parent // m)) as [[]|] eqn:Hp; [done | by simplify_eq |].
    destruct (fs !! rev rev_parent) as [[]|]; [done | |].
    + simplify_eq. apply lookup_insert_eq.
    + destruct (mkdir_parents rev_parent fs); [done|].
      simplify_eq. apply lookup_insert_eq.
Qed.

(** X7: when [ensure_dir] succeeds, the path is a directory afterwards,
    every entry that existed is kept as it was, every entry that is new
    is a directory on the way to the path, and doing it again changes
    nothing. *)
Theorem ensure_dir_creates_only_ancestors (p : path) (w w' : world) :
  ensure_dir p w = (Ok (), w') →
  fs w' !! p = Some Dir
  ∧ out w' = out w
  ∧ (∀ q n, fs w !! q = Some n → fs w' !! q = Some n)
  ∧ (∀ q, fs w !! q = None → is_Some (fs w' !! q) →
          fs w' !! q = Some Dir ∧ ∃ r, p = q ++ r)
  ∧ ensure_dir p w' = (Ok (), w').
Proof.
  unfold ensure_dir, lift_fs.
  destruct (mkdir_parents (rev p) (fs w)) as [e|fs'] eqn:Hrun; [done|].
  intros [= <-]. cbn [fs out].
  pose proof (mkdir_parents_made _ _ _ Hrun) as Hmade.
  rewrite rev_involutive in Hmade.
  split; [done|]. split; [done|]. split; [|split].
  - intros q n. by apply (mkdir_parents_keeps _ _ _ _ _ Hrun).
  - intros q Hq Hq'.
    destruct (mkdir_parents_new _ _ _ q Hrun Hq Hq') as [? [r Hr]].
    rewrite rev_involutive in Hr. eauto.
  - by rewrite mkdir_parents_existing by (by rewrite rev_involutive).
Qed.

Lemma ensure_dir_creates_only_ancestors_witness :
  let w' := (ensure_dir (Scenario.home // "images" // "2024")
               (World Scenario.three_files [])).2 in
  fs w' !! (Scenario.home // "images" // "2024") = Some Dir
  ∧ ensure_dir (Scenario.home // "images" // "2024") w' = (Ok (), w').
Proof.
  intros w'.
  destruct (ensure_dir_creates_only_ancestors
              (Scenario.home // "images" // "2024")
              (World Scenario.three_files []) w')
    as (H1 & _ & _ & _ & H5); [vm_compute; reflexivity|].
  split; [exact H1 | exact H5].
Defined.

Lemma mkdir_parents_file rev_path fs c :
  fs !! rev rev_path = Some (File c) →
  mkdir_parents rev_path fs = inl FileExistsError.
Proof. intros H. destruct rev_path; simpl in *; by rewrite H. Qed.

Lemma mkdir_parents_below_file fs q c r :
  fs !! q = Some (File c) →
  r ≠ [] →
  (∀ r1 r2, r = r1 ++ r2 → r1 ≠ [] → fs !! (q ++ r1) = None) →
  mkdir_parents (rev (q ++ r)) fs = inl NotADirectoryError.
Proof.
  intros Hq. induction r as [|n r IH] using rev_ind; intros Hne Hfree; [done|].
  rewrite app_assoc, rev_unit, mkdir_parents_cons, rev_involutive.
  unfold Path.child. rewrite <- app_assoc.
  rewrite (Hfree (r ++ [n]) []) by (by rewrite ?app_nil_r; try destruct r).
  destruct (decide (r = [])) as [->|Hr].
  - by rewrite app_nil_r, Hq.
  - rewrite (Hfree r [n]) by done. rewrite IH; [done | done |].
    intros r1 r2 Hr12 Hr1. apply (Hfree r1 (r2 ++ [n])); [|done].
    by rewrite Hr12, app_assoc.
Qed.

(** X8: [ensure_dir] does not replace a file.  When the path itself is a
    file it raises [FileExistsError]; when the deepest existing entry on
    the way to the path is a file it raises [NotADirectoryError]; in both
    cases nothing is created. *)
Theorem ensure_dir_blocked_by_file (q r : path) (c : string) (w : world) :
  fs w !! q = Some (File c) →
  (∀ r1 r2, r = r1 ++ r2 → r1 ≠ [] → fs w !! (q ++ r1) = None) →
  ensure_dir (q ++ r) w
  = (Raise (match r with
            | [] => FileExistsError
            | _ => NotADirectoryError
            end), w).
Proof.
  intros Hq Hfree. unfold ensure_dir, lift_fs.
  destruct r as [|n r].
  - rewrite app_nil_r.
    by rewrite (mkdir_parents_file _ _ c) by (by rewrite rev_involutive).
  - by rewrite (mkdir_parents_below_file _ _ c).
Qed.

Lemma ensure_dir_blocked_by_file_witness :
  ensure_dir (Scenario.home // "c" // "x" // "y") (World Scenario.three_files [])
  = (Raise NotADirectoryError, World Scenario.three_files []).
Proof.
  apply (ensure_dir_blocked_by_file (Scenario.home // "c") ["x"; "y"] "C"
           (World Scenario.three_files [])).
  - vm_compute; reflexivity.
  - intros r1 r2 Hr Hr1. cbn [fs].
    destruct r1 as [|a r1]; [done|]. injection Hr as <- Hr.
    destruct r1 as [|b r1]; [by vm_compute|]. injection Hr as <- Hr.
    destruct r1; [by vm_compute | done].
Defined.

(** ** The classifier and letter case *)

Lemma lower_char_idem c : Str.lower_char (Str.lower_char c) = Str.lower_char c.
Proof. by destruct c as [[] [] [] [] [] [] [] []]. Qed.

Lemma lower_idem s : Str.lower (Str.lower s) = Str.lower s.
Proof.
  induction s as [|c s IH]; [done|]. cbn [Str.lower].
  by rewrite lower_char_idem, IH.
Qed.

Lemma lower_append s t : Str.lower (s +:+ t) = Str.lower s +:+ Str.lower t.
Proof.
  induction s as [|c s IH]; [done|].
  rewrite append_cons. cbn [Str.lower]. by rewrite IH.
Qed.



(** ** The collision resolver: names and stability *)

Lemma take_drop i s : Str.take i s +:+ Str.drop i s = s.
Proof.
  revert i. induction s as [|c s IH]; intros [|i]; try done.
  cbn [Str.take Str.drop]. by rewrite append_cons, IH.
Qed.

Lemma stem_suffix name : Path.stem name +:+ Path.suffix name = name.
Proof.
  unfold Path.stem, Path.suffix.
  destruct (Str.rfind_dot name) as [i|]; [|apply append_nil_r].
  destruct ((0 <? i)%nat && (i <? String.length name - 1)%nat);
    [apply take_drop | apply append_nil_r].
Qed.

(** X10: the stem and the extension the resolver splits a file name into
    make up the name again, so every numbered candidate is the name with
    [ (k)] put between them; no numbered candidate is the name itself,
    and no two of them are equal. *)
Theorem numbered_names_are_new (filename : string) (k k' : nat) :
  Path.stem filename +:+ Path.suffix filename = filename
  ∧ numbered (Path.stem filename) k (Path.suffix filename) ≠ filename
  ∧ (numbered (Path.stem filename) k (Path.suffix filename)
     = numbered (Path.stem filename) k' (Path.suffix filename) → k = k').
Proof.
  split; [apply stem_suffix|]. split; [|apply numbered_inj].
  intros H. apply (f_equal String.length) in H.
  rewrite <- (stem_suffix filename) in H at 3. unfold numbered in H.
  rewrite !length_append in H. simpl in H. lia.
Qed.

(** X11: the resolver's answer is a free path directly inside the
    destination folder, and it does not change when other names in that
    folder are taken later, as long as the answer itself stays free. *)
Theorem safe_destination_is_stable (fs fs' : filesystem) (dst_folder : path)
    (filename : string) :
  (∀ n, exists_ fs (dst_folder // n) = true →
        exists_ fs' (dst_folder // n) = true) →
  exists_ fs' (safe_destination fs dst_folder filename) = false →
  safe_destination fs' dst_folder filename
  = safe_destination fs dst_folder filename
  ∧ exists_ fs (safe_destination fs dst_folder filename) = false
  ∧ Path.parent (safe_destination fs dst_folder filename) = dst_folder.
Proof.
  intros Hmore Hfree. split; [by apply safe_destination_stable|].
  split; [apply safe_destination_fresh|].
  destruct (safe_destination_child fs dst_folder filename) as [n ->].
  apply parent_child.
Qed.

Lemma safe_destination_is_stable_witness :
  safe_destination
    (<[Scenario.home // "images" // "b.png" := File ""]> Scenario.twice_planned)
    (Scenario.home // "images") "a.jpg"
  = safe_destination Scenario.twice_planned (Scenario.home // "images") "a.jpg".
Proof.
  apply (safe_destination_is_stable Scenario.twice_planned
           (<[Scenario.home // "images" // "b.png" := File ""]>
              Scenario.twice_planned)
           (Scenario.home // "images") "a.jpg").
  - intros n. rewrite !exists_lookup. intros [x Hx].
    destruct (decide (Scenario.home // "images" // "b.png"
                      = Scenario.home // "images" // n)) as [<-|Hne].
    + by rewrite lookup_insert_eq.
    + rewrite lookup_insert_ne by done. by rewrite Hx.
  - vm_compute; reflexivity.
Defined.

(** X12: two files never get the same destination in a real run: once the
    resolver's answer is taken, asking again for the same name in the same
    folder gives a different path, again a free one. *)
Theorem safe_destination_successive (fs : filesystem) (dst_folder : path)
    (filename : string) (n : node) :
  let first := safe_destination fs dst_folder filename in
  let second := safe_destination (<[first := n]> fs) dst_folder filename in
  second ≠ first ∧ exists_ fs first = false ∧ exists_ fs second = false.
Proof.
  intros first second.
  pose proof (safe_destination_fresh (<[first := n]> fs) dst_folder filename)
    as Hsecond. fold second in Hsecond.
  apply not_exists_lookup in Hsecond.
  assert (second ≠ first) as Hne.
  { intros Heq. rewrite Heq, lookup_insert_eq in Hsecond. done. }
  split; [done|]. split; [apply safe_destination_fresh|].
  apply not_exists_lookup. by rewrite lookup_insert_ne in Hsecond.
Qed.

(** ** The move executor *)

Lemma mkdir_parents_off_path rev_path fs fs' q :
  mkdir_parents rev_path fs = inr fs' →
  (∀ r, rev rev_path ≠ q ++ r) → fs' !! q = fs !! q.
Proof.
  intros Hrun Hoff. destruct (fs !! q) as [n|] eqn:Hq.
  - by eapply mkdir_parents_keeps.
  - destruct (fs' !! q) as [n|] eqn:Hq'; [|done].
    destruct (mkdir_parents_new _ _ _ q Hrun Hq) as [_ [r Hr]]; [by rewrite Hq'|].
    by destruct (Hoff r).
Qed.

Lemma child_not_prefix_of_parent p r : p ≠ [] → Path.parent p ≠ p ++ r.
Proof.
  intros Hp H. apply (f_equal length) in H.
  rewrite (child_parent_name p Hp) in H at 2.
  rewrite length_app, length_child in H. lia.
Qed.





(** ** What a run selects *)

(** X15: the report of a dry run.  On a directory a dry run ends normally,
    prints one line per selected file and then their count.  A selected
    file is a yielded path that is no directory and no log of the
    organizer, directly in the root unless sub-folders are included; its
    destination lies in the bucket folder of its extension, is free, and so
    differs from the file's own path even when the file is in that folder
    already. *)
Theorem organize_dry_run_report (now : datetime) (yielded : list path)
    (folder : path) (include_subdirs : bool) (w : world) :
  let pairs := plan (fs w) folder include_subdirs yielded in
  is_dir (fs w) folder = true →
  organize now yielded folder true include_subdirs w
  = (Ok (),
     World (fs w)
       (out w ++ (uncurry MsgDryRunMove <$> pairs)
        ++ [MsgProcessed (length pairs)]))
  ∧ (∀ s, s ∈ pairs.*1 ↔
          s ∈ yielded ∧ is_dir (fs w) s = false
          ∧ Str.startswith LOG_PREFIX (Path.name s) = false
          ∧ (include_subdirs = false → Path.parent s = folder))
  ∧ (∀ s d, (s, d) ∈ pairs →
       (∃ n, d = folder // pick_bucket (Path.suffix (Path.name s)) // n)
       ∧ fs w !! d = None
       ∧ (exists_ (fs w) s = true → d ≠ s)).
Proof.
  cbv zeta. intros Hroot. split; [by apply organize_dry|]. split.
  - intros s. rewrite elem_of_plan_sources. unfold skipped.
    rewrite !orb_false_iff, andb_false_iff, negb_false_iff, bool_decide_eq_false.
    split.
    + intros (Hin & [[Hd Hl] Hp]). repeat split; try done.
      intros ->. destruct Hp as [Hp|Hp]; [done|].
      by destruct (decide (Path.parent s = folder)).
    + intros (Hin & Hd & Hl & Hp). repeat split; try done.
      destruct include_subdirs; [by left|]. right. rewrite Hp by done. tauto.
  - intros s d [Hin [Hskip ->]]%elem_of_plan. split; [|split].
    + apply planned_dst_child.
    + apply planned_dst_fresh.
    + intros Hs Heq. apply exists_lookup in Hs.
      rewrite <- Heq, planned_dst_fresh in Hs. by destruct Hs.
Qed.

Lemma organize_dry_run_report_witness :
  organize Scenario.now
    [Scenario.home // "images" // "a.jpg"; Scenario.home // "images";
     Scenario.home // "a.jpg"]
    Scenario.home true true (World Scenario.twice_planned [])
  = (Ok (),
     World Scenario.twice_planned
       [ MsgDryRunMove (Scenario.home // "images" // "a.jpg")
           (Scenario.home // "images" // "a (2).jpg");
         MsgDryRunMove (Scenario.home // "a.jpg")
           (Scenario.home // "images" // "a (2).jpg");
         MsgProcessed 2 ]).
Proof.
  destruct (organize_dry_run_report Scenario.now
              [Scenario.home // "images" // "a.jpg"; Scenario.home // "images";
               Scenario.home // "a.jpg"]
              Scenario.home true (World Scenario.twice_planned []))
    as [Hrun _]; [vm_compute; reflexivity|].
  rewrite Hrun. vm_compute. reflexivity.
Defined.

Lemma organize_loop_skips_prefix folder dry_run incl log_f before rest n w :
  Forall (λ p, skipped (fs w) folder incl p = true) before →
  organize_loop folder dry_run incl log_f (before ++ rest) n w
  = organize_loop folder dry_run incl log_f rest n w.
Proof.
  induction 1 as [|p before Hp _ IH]; [done|].
  by rewrite <- app_comm_cons, organize_loop_cons, Hp.
Qed.

(** X16: a file where a bucket folder is needed stops a real run.  When
    the first file the loop selects belongs to a bucket whose name a file
    in the root carries, the run raises [FileExistsError] from making the
    folder: nothing was moved and nothing printed, and the log of the run
    is left behind, empty. *)
Theorem organize_bucket_name_taken (now : datetime) (before rest : list path)
    (p folder : path) (include_subdirs : bool) (c : string) (w : world) :
  let log := folder // log_name now in
  let bucket := folder // pick_bucket (Path.suffix (Path.name p)) in
  is_dir (fs w) folder = true →
  is_dir (fs w) log = false →
  Forall (λ q, skipped (fs w) folder include_subdirs q = true) before →
  skipped (fs w) folder include_subdirs p = false →
  fs w !! bucket = Some (File c) →
  organize now (before ++ p :: rest) folder false include_subdirs w
  = (Raise FileExistsError, World (<[log := File ""]> (fs w)) (out w)).
Proof.
  cbv zeta. intros Hroot Hlog Hbefore Hp Hbucket.
  unfold organize. rewrite bind_run. unfold gets at 1. rewrite Hroot.
  cbn [negb]. rewrite bind_run. rewrite bind_run. unfold lift_fs at 1.
  rewrite open_write_log; [| by apply is_dir_lookup |].
  2:{ intros H. unfold is_dir in Hlog. by rewrite H in Hlog. }
  cbn [mret M_ret]. rewrite bind_run.
  rewrite organize_loop_skips_prefix.
  2:{ cbn [fs]. eapply Forall_impl; [exact Hbefore|]. intros q Hq. cbn beta.
      by rewrite skipped_insert_file. }
  rewrite organize_loop_cons. cbn [fs]. rewrite skipped_insert_file, Hp by done.
  rewrite bind_run. unfold move_file. rewrite bind_run.
  unfold ensure_dir, lift_fs at 1. cbn [fs out].
  destruct (planned_dst_child (<[folder // log_name now := File ""]> (fs w))
              folder p) as [n ->].
  rewrite parent_child.
  rewrite (mkdir_parents_file _ _ c); [done|].
  rewrite rev_involutive, lookup_insert_ne; [done|].
  intros [_ H]%child_inj. symmetry in H. by apply bucket_ne_log_name in H.
Qed.

Lemma organize_bucket_name_taken_witness :
  let fs0 : filesystem :=
    <[Scenario.home // "no_extension" := File "N"]> Scenario.empty_folder in
  organize Scenario.now [Scenario.log; Scenario.home // "no_extension"]
    Scenario.home false false (World fs0 [])
  = (Raise FileExistsError, World (<[Scenario.log := File ""]> fs0) []).
Proof.
  set (fs0 := <[Scenario.home // "no_extension" := File "N"]>
                Scenario.empty_folder).
  assert (is_dir fs0 Scenario.home = true) as H1 by (vm_compute; reflexivity).
  assert (is_dir fs0 Scenario.log = false) as H2 by (vm_compute; reflexivity).
  assert (Forall (λ q, skipped fs0 Scenario.home false q = true) [Scenario.log])
    as H3 by compute_done.
  assert (skipped fs0 Scenario.home false (Scenario.home // "no_extension")
          = false) as H4 by (vm_compute; reflexivity).
  assert (fs0 !! (Scenario.home // "no_extension") = Some (File "N")) as H5
    by (vm_compute; reflexivity).
  exact (organize_bucket_name_taken Scenario.now [Scenario.log] []
           (Scenario.home // "no_extension") Scenario.home false "N"
           (World fs0 []) H1 H2 H3 H4 H5).
Defined.

(** ** Organize, then undo *)

Lemma plan_sources_NoDup fs folder incl yielded :
  NoDup yielded → NoDup (plan fs folder incl yielded).*1.
Proof.
  induction 1 as [|p rest Hp _ IH]; [constructor|].
  rewrite plan_cons. destruct (skipped fs folder incl p); [done|].
  cbn [fmap list_fmap fst]. constructor; [|done].
  rewrite elem_of_plan_sources. by intros [? _].
Qed.

Section organize_then_undo.
Variables (fs0 : filesystem) (folder : path) (now : datetime).
Variable yielded : list path.
Local Abbreviation lg := (folder // log_name now).
Local Abbreviation pl := (plan fs0 folder false yielded).
Hypothesis Hroot : fs0 !! folder = Some Dir.
Hypothesis Hlog : fs0 !! lg ≠ Some Dir.
Hypothesis Hnodup : NoDup yielded.
Hypothesis Hexist : ∀ p, p ∈ yielded → p ≠ lg → is_Some (fs0 !! p).
Hypothesis Hdistinct : NoDup pl.*2.
Hypothesis Hbuckets :
  ∀ s d c, (s, d) ∈ pl → fs0 !! Path.parent d ≠ Some (File c).

Lemma planned_pair s d :
  (s, d) ∈ pl →
  s ≠ lg ∧ (∃ n, s = folder // n) ∧ (∃ b n, d = folder // b // n)
  ∧ (∃ c, fs0 !! s = Some (File c)) ∧ fs0 !! d = None
  ∧ (∃ ext, Path.parent d = folder // pick_bucket ext).
Proof.
  intros Hin. pose proof Hin as [Hy [Hskip ->]]%elem_of_plan.
  destruct (not_skipped_inv _ _ _ Hroot Hskip) as (Hdir & Hpre & Hs).
  assert (s ≠ lg) as Hne.
  { intros ->. by rewrite log_is_skipped in Hskip. }
  destruct (planned_dst_child fs0 folder s) as [n Hn].
  split; [done|]. split; [by eexists|]. split; [rewrite Hn; by eauto|].
  split; [|split; [apply planned_dst_fresh|]].
  - destruct (Hexist s Hy Hne) as [[c|] Hc]; [by eexists|].
    apply is_dir_lookup in Hc. by rewrite Hc in Hdir.
  - rewrite Hn, parent_child. by eexists.
Qed.

Lemma log_not_planned :
  (lg ∉ pl.*1) ∧ (lg ∉ pl.*2) ∧ (lg ∉ Path.parent <$> pl.*2).
Proof.
  split; [|split].
  - intros ([s d] & Heq & Hin)%list_elem_of_fmap. cbn [fst] in Heq.
    by destruct (planned_pair s d Hin) as [? _].
  - intros ([s d] & Heq & Hin)%list_elem_of_fmap. cbn [snd] in Heq.
    destruct (planned_pair s d Hin) as (_ & _ & (b & n & ->) & _).
    symmetry in Heq. by apply grandchild_ne_child in Heq.
  - intros (d' & Heq & ([s d] & -> & Hin)%list_elem_of_fmap)%list_elem_of_fmap.
    cbn [snd] in Heq.
    destruct (planned_pair s d Hin) as (_ & _ & _ & _ & _ & (ext & Hp)).
    rewrite Hp in Heq. apply child_inj in Heq as [_ Heq].
    symmetry in Heq. by apply bucket_ne_log_name in Heq.
Qed.

Lemma root_not_planned :
  folder ≠ lg ∧ (folder ∉ pl.*1) ∧ (folder ∉ pl.*2)
  ∧ (folder ∉ Path.parent <$> pl.*2).
Proof.
  split; [apply not_eq_sym, child_ne_self|]. split; [|split].
  - intros ([s d] & Heq & Hin)%list_elem_of_fmap. cbn [fst] in Heq.
    destruct (planned_pair s d Hin) as (_ & (n & ->) & _).
    symmetry in Heq. by apply child_ne_self in Heq.
  - intros ([s d] & Heq & Hin)%list_elem_of_fmap. cbn [snd] in Heq.
    destruct (planned_pair s d Hin) as (_ & _ & (b & n & ->) & _).
    symmetry in Heq. by apply grandchild_ne_self in Heq.
  - intros (d' & Heq & ([s d] & -> & Hin)%list_elem_of_fmap)%list_elem_of_fmap.
    cbn [snd] in Heq.
    destruct (planned_pair s d Hin) as (_ & _ & _ & _ & _ & (ext & Hp)).
    rewrite Hp in Heq. symmetry in Heq. by apply child_ne_self in Heq.
Qed.

(** The state after a real run, in the terms the later steps use. *)
Lemma organize_state outi :
  ∃ fs1,
    organize now yielded folder false false (World fs0 outi)
    = (Ok (),
       World fs1 (outi ++ moved_messages pl
                  ++ [MsgLogSaved lg; MsgProcessed (length pl)]))
    ∧ fs1 !! folder = Some Dir
    ∧ fs1 !! lg = Some (File (log_text pl))
    ∧ (∀ s d, (s, d) ∈ pl →
         fs1 !! s = None ∧ fs1 !! d = fs0 !! s
         ∧ fs1 !! Path.parent d = Some Dir)
    ∧ (∀ q, q ≠ lg → q ∉ pl.*1 → q ∉ pl.*2 → q ∉ Path.parent <$> pl.*2 →
            fs1 !! q = fs0 !! q).
Proof.
  destruct (organize_real fs0 folder now yielded outi)
    as (fs1 & Hrun1 & Hlog1 & Hpairs1 & Hframe1); try done.
  rewrite append_nil_l in Hlog1.
  assert (∀ q, q ≠ lg → q ∉ pl.*1 → q ∉ pl.*2 → q ∉ Path.parent <$> pl.*2 →
            fs1 !! q = fs0 !! q) as Hframe.
  { intros q H1 H2 H3 H4. rewrite Hframe1 by done.
    by rewrite lookup_insert_ne. }
  exists fs1. split; [done|]. split; [|done].
  destruct root_not_planned as (? & ? & ? & ?). by rewrite Hframe.
Qed.

(** Both steps: the run, then the undo of its log. *)
Lemma organize_then_undo outi :
  Forall record_ok pl →
  ∃ fs1 out1 fs2,
    organize now yielded folder false false (World fs0 outi)
    = (Ok (), World fs1 out1)
    ∧ undo lg false (World fs1 out1)
      = (Ok (), World fs2 (out1 ++ undid_messages (rev pl)))
    ∧ fs2 !! lg = Some (File (log_text pl))
    ∧ (∀ s d, (s, d) ∈ pl →
         fs1 !! s = None ∧ fs1 !! d = fs0 !! s
         ∧ fs2 !! s = fs0 !! s ∧ fs2 !! d = None
         ∧ fs2 !! Path.parent d = Some Dir)
    ∧ (∀ q, q ≠ lg → q ∉ Path.parent <$> pl.*2 → fs2 !! q = fs0 !! q).
Proof.
  intros Hok.
  destruct (organize_state outi)
    as (fs1 & Hrun1 & Hroot1 & Hlog1 & Hpairs1 & Hframe1).
  destruct (undo_loop_restores folder (rev pl) fs1
              (outi ++ moved_messages pl
               ++ [MsgLogSaved lg; MsgProcessed (length pl)]))
    as (fs2 & Hrun2 & Hpairs2 & Hframe2).
  { done. }
  { rewrite <- (Permutation_rev pl). by apply plan_sources_NoDup. }
  { by rewrite <- (Permutation_rev pl). }
  { intros s d Hin. rewrite <- (Permutation_rev pl) in Hin.
    destruct (Hpairs1 s d Hin) as (Hs & Hd & _).
    destruct (planned_pair s d Hin) as (_ & ? & ? & (c & Hc) & _).
    repeat split; [done | done | done |]. exists c. by rewrite Hd. }
  assert (∀ q, q ∉ pl.*1 → q ∉ pl.*2 → fs2 !! q = fs1 !! q) as Hkeep.
  { intros q H1 H2. apply Hframe2; by rewrite <- (Permutation_rev pl). }
  assert (∀ s d, (s, d) ∈ pl → fs2 !! s = fs0 !! s ∧ fs2 !! d = None) as Hback.
  { intros s d Hin.
    destruct (Hpairs2 s d) as [-> ->]; [by rewrite <- (Permutation_rev pl)|].
    by destruct (Hpairs1 s d Hin) as (_ & -> & _). }
  exists fs1. eexists. exists fs2. split; [exact Hrun1|]. split.
  { rewrite (undo_parsed _ _ (log_text pl) pl); [exact Hrun2 | done |].
    by apply parse_log_text. }
  split; [|split].
  - destruct log_not_planned as (? & ? & ?). by rewrite Hkeep.
  - intros s d Hin.
    destruct (Hpairs1 s d Hin) as (Hs & Hd & Hp).
    destruct (Hback s d Hin) as [Hs2 Hd2].
    repeat split; try done.
    rewrite Hkeep; [done | |].
    + intros ([s' d'] & Heq & Hin')%list_elem_of_fmap. cbn [fst] in Heq.
      destruct (planned_pair s' d' Hin') as (_ & _ & _ & (c & Hc) & _).
      apply (Hbuckets s d c Hin). by rewrite Heq.
    + intros ([s' d'] & Heq & Hin')%list_elem_of_fmap. cbn [snd] in Heq.
      destruct (planned_pair s d Hin) as (_ & _ & _ & _ & _ & (ext & Hpd)).
      destruct (planned_pair s' d' Hin') as (_ & _ & (b & n & ->) & _).
      rewrite Hpd in Heq. symmetry in Heq. by apply grandchild_ne_child in Heq.
  - intros q Hq Hqp.
    destruct (decide (q ∈ pl.*1)) as [Hin|Hnin1].
    { apply list_elem_of_fmap in Hin as ([s d] & -> & Hin). cbn [fst].
      by destruct (Hback _ _ Hin) as [-> _]. }
    destruct (decide (q ∈ pl.*2)) as [Hin|Hnin2].
    { apply list_elem_of_fmap in Hin as ([s d] & -> & Hin). cbn [snd].
      destruct (Hback _ _ Hin) as [_ ->].
      by destruct (planned_pair s d Hin) as (_ & _ & _ & _ & -> & _). }
    rewrite Hkeep by done. by apply Hframe1.
Qed.

(** After a real run every entry that is left is one the loop skips. *)
Lemma leftovers_skipped outi p :
  (∀ n, is_Some (fs0 !! (folder // n)) → folder // n ≠ lg →
        folder // n ∈ yielded) →
  let w1 := (organize now yielded folder false false (World fs0 outi)).2 in
  is_Some (fs w1 !! p) → skipped (fs w1) folder false p = true.
Proof.
  intros Hall. cbv zeta.
  destruct (organize_state outi)
    as (fs1 & -> & Hroot1 & Hlog1 & Hpairs1 & Hframe1).
  cbn [snd fs]. intros Hp. unfold skipped.
  destruct (decide (Path.parent p = folder)) as [Hpar|Hpar].
  2:{ rewrite (bool_decide_eq_true_2 _ Hpar). cbn. apply orb_true_r. }
  destruct (decide (p = [])) as [->|Hne].
  { cbn in Hpar. rewrite <- Hpar in Hroot1. apply orb_true_iff. left.
    apply orb_true_iff. left. by apply is_dir_lookup. }
  rewrite (child_parent_name p Hne), Hpar in Hp |- *.
  set (n := Path.name p) in *. rewrite name_child.
  destruct (Str.startswith LOG_PREFIX n) eqn:Hpre.
  { by rewrite orb_true_r. }
  assert (folder // n ≠ lg) as Hnl.
  { intros [_ Heq]%child_inj. by rewrite Heq, log_name_prefix in Hpre. }
  assert (is_dir fs1 (folder // n) = true) as ->; [|done].
  destruct (decide (folder // n ∈ pl.*1)) as [Hin|Hnin1].
  { apply list_elem_of_fmap in Hin as ([s d] & Heq & Hin). cbn [fst] in Heq.
    destruct (Hpairs1 s d Hin) as (Hs & _). rewrite <- Heq in Hs.
    rewrite Hs in Hp. by destruct Hp. }
  destruct (decide (folder // n ∈ pl.*2)) as [Hin|Hnin2].
  { apply list_elem_of_fmap in Hin as ([s d] & Heq & Hin). cbn [snd] in Heq.
    destruct (planned_pair s d Hin) as (_ & _ & (b & m & ->) & _).
    symmetry in Heq. by apply grandchild_ne_child in Heq. }
  destruct (decide (folder // n ∈ Path.parent <$> pl.*2)) as [Hin|Hnin3].
  { apply list_elem_of_fmap in Hin as (d' & Heq & Hin).
    apply list_elem_of_fmap in Hin as ([s d] & -> & Hin). cbn [snd] in Heq.
    destruct (Hpairs1 s d Hin) as (_ & _ & Hd). rewrite <- Heq in Hd.
    by apply is_dir_lookup. }
  rewrite Hframe1 in Hp by done.
  pose proof (Hall n Hp Hnl) as Hy.
  pose proof Hnin1 as Hnot. rewrite elem_of_plan_sources in Hnot.
  destruct (skipped fs0 folder false (folder // n)) eqn:Hskip; [|by destruct Hnot].
  unfold skipped in Hskip. rewrite name_child, Hpre, parent_child in Hskip.
  rewrite (bool_decide_eq_false_2 (folder ≠ folder)) in Hskip by (by intros ?).
  cbn in Hskip. rewrite !orb_false_r in Hskip.
  apply is_dir_lookup. rewrite Hframe1 by done. by apply is_dir_lookup.
Qed.

Lemma later_log_no_directory outi now2 :
  fs0 !! (folder // log_name now2) ≠ Some Dir →
  let w1 := (organize now yielded folder false false (World fs0 outi)).2 in
  is_dir (fs w1) folder = true
  ∧ is_dir (fs w1) (folder // log_name now2) = false.
Proof.
  intros Hlog2. cbv zeta.
  destruct (organize_state outi)
    as (fs1 & -> & Hroot1 & Hlog1 & Hpairs1 & Hframe1).
  cbn [snd fs]. split; [by apply is_dir_lookup|].
  destruct (decide (folder // log_name now2 = lg)) as [->|Hne].
  { unfold is_dir. by rewrite Hlog1. }
  assert (fs1 !! (folder // log_name now2) = fs0 !! (folder // log_name now2))
    as Heq.
  { apply Hframe1; [done| | |].
    - intros ([s d] & Heq & Hin)%list_elem_of_fmap. cbn [fst] in Heq.
      pose proof Hin as [_ [Hskip _]]%elem_of_plan.
      by rewrite <- Heq, log_is_skipped in Hskip.
    - intros ([s d] & Heq & Hin)%list_elem_of_fmap. cbn [snd] in Heq.
      destruct (planned_pair s d Hin) as (_ & _ & (b & n & ->) & _).
      symmetry in Heq. by apply grandchild_ne_child in Heq.
    - intros (d' & Heq & ([s d] & -> & Hin)%list_elem_of_fmap)%list_elem_of_fmap.
      cbn [snd] in Heq.
      destruct (planned_pair s d Hin) as (_ & _ & _ & _ & _ & (ext & Hp)).
      rewrite Hp in Heq. apply child_inj in Heq as [_ Heq].
      symmetry in Heq. by apply bucket_ne_log_name in Heq. }
  unfold is_dir. rewrite Heq.
  by destruct (fs0 !! (folder // log_name now2)) as [[]|].
Qed.
End organize_then_undo.

(** The conditions of a real run, from their executable form. *)
Lemma run_conditions fs0 folder now yielded :
  is_dir fs0 folder = true →
  is_dir fs0 (folder // log_name now) = false →
  Forall (λ p, p ≠ folder // log_name now → exists_ fs0 p = true) yielded →
  Forall (λ sd, is_file fs0 (Path.parent sd.2) = false)
    (plan fs0 folder false yielded) →
  fs0 !! folder = Some Dir
  ∧ fs0 !! (folder // log_name now) ≠ Some Dir
  ∧ (∀ p, p ∈ yielded → p ≠ folder // log_name now → is_Some (fs0 !! p))
  ∧ (∀ s d c, (s, d) ∈ plan fs0 folder false yielded →
              fs0 !! Path.parent d ≠ Some (File c)).
Proof.
  intros Hroot Hlog Hexists Hbuckets. split; [by apply is_dir_lookup|].
  split; [|split].
  - intros H. unfold is_dir in Hlog. by rewrite H in Hlog.
  - intros p Hin Hp. rewrite Forall_forall in Hexists.
    by apply exists_lookup, Hexists.
  - intros s d c Hin H. rewrite Forall_forall in Hbuckets.
    specialize (Hbuckets _ Hin). unfold is_file in Hbuckets. simpl in Hbuckets.
    by rewrite H in Hbuckets.
Qed.

(** A real run that selects nothing. *)
Lemma organize_nothing_selected now yielded folder incl w :
  is_dir (fs w) folder = true →
  is_dir (fs w) (folder // log_name now) = false →
  Forall (λ p, skipped (fs w) folder incl p = true) yielded →
  organize now yielded folder false incl w
  = (Ok (),
     World (<[folder // log_name now := File ""]> (fs w))
       (out w ++ [MsgLogSaved (folder // log_name now); MsgProcessed 0])).
Proof.
  intros Hroot Hlog Hskipped.
  unfold organize. rewrite bind_run. unfold gets at 1. rewrite Hroot.
  cbn [negb]. rewrite bind_run. rewrite bind_run. unfold lift_fs at 1.
  rewrite open_write_log; [| by apply is_dir_lookup |].
  2:{ intros H. unfold is_dir in Hlog. by rewrite H in Hlog. }
  cbn [mret M_ret]. rewrite bind_run.
  rewrite organize_loop_all_skipped.
  - rewrite bind_run. unfold print. cbn [fs out]. by rewrite <- app_assoc.
  - cbn [fs]. eapply Forall_impl; [exact Hskipped|]. intros p Hp. cbn beta.
    by rewrite skipped_insert_file.
Qed.







(** ** Undo into a folder that is gone *)

(** X20: undo makes the folder of the original source again.  For a record
    whose destination holds a file and whose source is free, when the
    source's folder is missing and can be made, undo makes it with the
    missing folders above it and puts the file back at the source; every
    other entry that was there stays, and what is new besides the source
    is a directory above it. *)
Theorem undo_recreates_source_folder (src dst : path) (c : string) (w : world)
    (fs1 : filesystem) :
  fs w !! dst = Some (File c) →
  fs w !! src = None →
  fs w !! Path.parent src = None →
  mkdir_parents (rev (Path.parent src)) (fs w) = inr fs1 →
  ∃ fs',
    undo_record false src dst w
    = (Ok (), World fs' (out w ++ [MsgUndid dst src]))
    ∧ fs' !! src = Some (File c)
    ∧ fs' !! dst = None
    ∧ fs' !! Path.parent src = Some Dir
    ∧ (∀ q n, q ≠ dst → fs w !! q = Some n → fs' !! q = Some n)
    ∧ (∀ q, q ≠ src → fs w !! q = None → is_Some (fs' !! q) →
            fs' !! q = Some Dir ∧ ∃ r, Path.parent src = q ++ r).
Proof.
  intros Hdst Hsrc Hgone Hmk.
  assert (src ≠ []) as Hne.
  { intros ->. destruct (rev (Path.parent [])) eqn:E; simpl in Hmk.
    - by rewrite Hsrc in Hmk.
    - done. }
  assert (src ≠ dst) as Hsd by (intros ->; by rewrite Hdst in Hsrc).
  assert (Path.parent src ≠ src) as Hps.
  { intros H. apply (child_not_prefix_of_parent src [] Hne).
    by rewrite app_nil_r. }
  assert (Path.parent src ≠ dst) as Hpd by (intros H; by rewrite H, Hdst in Hgone).
  assert (fs1 !! src = None) as Hsrc1.
  { rewrite (mkdir_parents_off_path _ _ _ src Hmk); [done|].
    intros r. rewrite rev_involutive. by apply child_not_prefix_of_parent. }
  pose proof (mkdir_parents_made _ _ _ Hmk) as Hparent.
  rewrite rev_involutive in Hparent.
  pose proof (mkdir_parents_keeps _ _ _ _ _ Hmk Hdst) as Hdst1.
  exists (<[src := File c]> (delete dst fs1)).
  split; [|split; [|split; [|split; [|split]]]].
  - unfold undo_record.
    rewrite bind_run. unfold gets at 1, exists_. rewrite Hdst.
    rewrite bind_run. unfold gets at 1, exists_. rewrite Hsrc.
    rewrite bind_run. unfold ensure_dir, lift_fs at 1. rewrite Hmk.
    rewrite bind_run. unfold lift_fs at 1. cbn [fs out].
    by rewrite (shutil_move_file _ _ _ c) by done.
  - apply lookup_insert_eq.
  - rewrite lookup_insert_ne by done. apply lookup_delete_eq.
  - rewrite lookup_insert_ne by done. by rewrite lookup_delete_ne.
  - intros q n Hqd Hq.
    rewrite lookup_insert_ne by (intros <-; by rewrite Hq in Hsrc).
    rewrite lookup_delete_ne by done. by eapply mkdir_parents_keeps.
  - intros q Hqs Hq Hq'.
    assert (q ≠ dst) as Hqd by (intros ->; by rewrite Hdst in Hq).
    rewrite lookup_insert_ne in Hq' by done.
    rewrite lookup_delete_ne in Hq' by done.
    rewrite lookup_insert_ne by done. rewrite lookup_delete_ne by done.
    destruct (mkdir_parents_new _ _ _ q Hmk Hq Hq') as [Hdir [r Hr]].
    split; [done|]. exists r. by rewrite rev_involutive in Hr.
Qed.

Lemma undo_recreates_source_folder_witness :
  ∃ fs',
    undo_record false (Scenario.home // "old" // "deep" // "a.jpg")
      (Scenario.home // "images" // "a.jpg") (World Scenario.one_missing [])
    = (Ok (),
       World fs' [MsgUndid (Scenario.home // "images" // "a.jpg")
                    (Scenario.home // "old" // "deep" // "a.jpg")])
    ∧ fs' !! (Scenario.home // "old" // "deep" // "a.jpg") = Some (File "A")
    ∧ fs' !! (Scenario.home // "old" // "deep") = Some Dir.
Proof.
  destruct (undo_recreates_source_folder
              (Scenario.home // "old" // "deep" // "a.jpg")
              (Scenario.home // "images" // "a.jpg") "A"
              (World Scenario.one_missing [])
              (<[Scenario.home // "old" // "deep" := Dir]>
                 (<[Scenario.home // "old" := Dir]> Scenario.one_missing)))
    as [fs' [Hrun [Hsrc [_ [Hdir _]]]]];
    [vm_compute; reflexivity | vm_compute; reflexivity | vm_compute; reflexivity
    | vm_compute; reflexivity |].
  exists fs'. split; [exact Hrun | split; [exact Hsrc | exact Hdir]].
Defined.
